(** * Newton-Raphson root finding ([src/main.cpp]): model and verification

    The C++ function [newton_raphson] iterates [x := x - func(x) / dervi(x)]
    on IEEE 754 binary64 values, under a loop counter of type [size_t].

    - [double] values are the binary64 instance of the standard library's
      executable IEEE specification ([SpecFloat], round to nearest even,
      one NaN); every operation of the source is rounded to binary64, as
      under SSE2 arithmetic;
    - [size_t] values are naturals below [2^64] (LP64), with the wrap-around
      of [++] written out;
    - the two [std::function] callables are computations over a world [W]
      (whatever state their closures can reach), so that the calls made by
      [newton_raphson] and their effects are observable; they are non-empty
      and return (the specification's contract on callables);
    - the [while] loop is run with fuel: one unit per test of the loop
      condition, [None] meaning that the fuel ran out. *)

From Stdlib Require Import String.
From Stdlib Require Import ZArith NArith Bool List Lia.
From Stdlib Require Import Floats.SpecFloat.
Import ListNotations.

(** ** IEEE 754 binary64 *)

Module Double.

Definition prec : Z := 53.
Definition emax : Z := 1024.

Definition double : Type := spec_float.

Definition add : double -> double -> double := SFadd prec emax.
Definition sub : double -> double -> double := SFsub prec emax.
Definition mul : double -> double -> double := SFmul prec emax.
Definition div : double -> double -> double := SFdiv prec emax.
(** [std::abs] on a [double] *)
Definition abs : double -> double := SFabs.
(** [<], [<=] and [==]: all three are false as soon as one side is NaN *)
Definition ltb : double -> double -> bool := SFltb.
Definition leb : double -> double -> bool := SFleb.
Definition eqb : double -> double -> bool := SFeqb.

(** Fused multiply-add, [x * y + z] with a single rounding (IEEE 754
    fusedMultiplyAdd): what a compiler that contracts [x * y + z] into one
    instruction evaluates. *)
Definition fma (x y z : double) : double :=
  match x, y with
  | S754_nan, _ | _, S754_nan => S754_nan
  | S754_infinity _, S754_zero _ | S754_zero _, S754_infinity _ => S754_nan
  | S754_infinity sx, S754_infinity sy
  | S754_infinity sx, S754_finite sy _ _
  | S754_finite sx _ _, S754_infinity sy =>
      add (S754_infinity (xorb sx sy)) z
  | S754_zero sx, S754_zero sy
  | S754_zero sx, S754_finite sy _ _
  | S754_finite sx _ _, S754_zero sy =>
      add (S754_zero (xorb sx sy)) z
  | S754_finite sx mx ex, S754_finite sy my ey =>
      let sp := xorb sx sy in
      let mp := Pos.mul mx my in
      let ep := Z.add ex ey in
      match z with
      | S754_nan => S754_nan
      | S754_infinity _ => z
      | S754_zero _ => binary_round_aux prec emax sp (Zpos mp) ep loc_Exact
      | S754_finite sz mz ez =>
          let e := Z.min ep ez in
          binary_normalize prec emax
            (Z.add (cond_Zopp sp (Zpos (fst (shl_align mp ep e))))
                   (cond_Zopp sz (Zpos (fst (shl_align mz ez e)))))
            e false
      end
  end.

(** An integer constant converted to [double] (exact below [2^53]). *)
Definition of_Z (z : Z) : double := binary_normalize prec emax z 0 false.

Definition zero : double := S754_zero false.
Definition neg_zero : double := S754_zero true.
Definition infinity : double := S754_infinity false.

(** [std::isfinite] *)
Definition is_finite (x : double) : bool :=
  match x with
  | S754_zero _ | S754_finite _ _ _ => true
  | S754_infinity _ | S754_nan => false
  end.

(** Representable values (canonical mantissa, exponent in range). *)
Definition valid (x : double) : bool := valid_binary prec emax x.

(** The decimal literals [1e-12], [1e-10] and [1e-15], rounded to nearest:
    [0x1.19799812dea11p-40], [0x1.b7cdfd9d7bdbbp-34] and
    [0x1.203af9ee75616p-50]. *)
Definition lit_1e_12 : double := S754_finite false 4951760157141521 (-92).
Definition lit_1e_10 : double := S754_finite false 7737125245533627 (-86).
Definition lit_1e_15 : double := S754_finite false 5070602400912918 (-102).

End Double.

Import Double.

Declare Scope double_scope.
Delimit Scope double_scope with double.
Bind Scope double_scope with double.
Infix "+" := Double.add : double_scope.
Infix "-" := Double.sub : double_scope.
Infix "*" := Double.mul : double_scope.
Infix "/" := Double.div : double_scope.
Infix "<?" := Double.ltb : double_scope.
Infix "<=?" := Double.leb : double_scope.
Infix "==" := Double.eqb (at level 70, no associativity) : double_scope.

(** ** [size_t] *)

Definition size_t_bits : N := 64.
Definition SIZE_MAX : N := 2 ^ size_t_bits - 1.

(** [++n] on a [size_t]: unsigned arithmetic wraps. *)
Definition size_t_succ (n : N) : N := (n + 1) mod 2 ^ size_t_bits.

(** ** Computations over a world, with fuel *)

Definition M (W A : Type) : Type := W -> option (A * W).

Definition ret {W A} (a : A) : M W A := fun w => Some (a, w).

Definition bind {W A B} (c : M W A) (k : A -> M W B) : M W B :=
  fun w => match c w with
           | Some (a, w') => k a w'
           | None => None
           end.

Definition out_of_fuel {W A} : M W A := fun _ => None.

Notation "x <- c ;; k" := (bind c (fun x => k))
  (at level 61, c at next level, right associativity).

(** A [std::function<double(double)>]: called with a [double], it returns a
    [double] and may change the world. *)
Definition callable (W : Type) : Type := double -> M W double.

(** ** The program *)

(** The local variables of [newton_raphson] that live across loop passes. *)
Record locals : Type := Locals { currentIteration : N; currentX : double }.

(** How one pass of the loop body ends: at one of the two [return]
    statements inside the loop, or at the closing brace. *)
Inductive flow : Type :=
| Return (st : locals)
| Continue (st : locals).

Section Program.

Context {W : Type}.
Variables (func dervi : callable W).
Variable tolerance : double.
Variable maxIteration : N.

(** Lines 30-43: one pass of the loop body. *)
Definition loop_body (st : locals) : M W flow :=
  let previousX := currentX st in                                    (* 30 *)
  functionValue <- func previousX ;;                                 (* 32 *)
  derivativeValue <- dervi previousX ;;                              (* 33 *)
  if (abs derivativeValue <? lit_1e_12)%double then                  (* 35 *)
    ret (Return st)                                                  (* 36 *)
  else
    let st := Locals (currentIteration st)                           (* 38 *)
                     (previousX - functionValue / derivativeValue)%double in
    if (abs (currentX st - previousX) <=? tolerance)%double then     (* 40 *)
      ret (Return st)                                                (* 41 *)
    else
      ret (Continue (Locals (size_t_succ (currentIteration st))      (* 43 *)
                            (currentX st))).

(** Lines 28-46: the loop and the [return] that follows it. *)
Fixpoint while_loop (fuel : nat) (st : locals) : M W locals :=
  match fuel with
  | O => out_of_fuel
  | S fuel' =>
      if (currentIteration st <=? maxIteration)%N then
        r <- loop_body st ;;
        match r with
        | Return st' => ret st'
        | Continue st' => while_loop fuel' st'
        end
      else ret st
  end.

(** Lines 25-47, keeping the locals at the [return] that was taken. *)
Definition newton_raphson_run (fuel : nat) (initialGuess : double) : M W locals :=
  while_loop fuel (Locals 0 initialGuess).

Definition newton_raphson (fuel : nat) (initialGuess : double) : M W double :=
  st <- newton_raphson_run fuel initialGuess ;;
  ret (currentX st).

End Program.

Arguments loop_body {W} func dervi tolerance st _.
Arguments while_loop {W} func dervi tolerance maxIteration fuel st _.
Arguments newton_raphson_run {W} func dervi tolerance maxIteration fuel initialGuess _.
Arguments newton_raphson {W} func dervi tolerance maxIteration fuel initialGuess _.

(** ** Callables *)

(** A callable that computes [f] and acts on the world by [obs]. *)
Definition observed {W} (obs : double -> W -> W) (f : double -> double) : callable W :=
  fun x w => Some (f x, obs x w).

(** A pure callable: it computes [f] and leaves the world alone. *)
Definition pure_call {W} (f : double -> double) : callable W :=
  observed (fun _ w => w) f.

(** The calls that [newton_raphson] makes, in the order it makes them. *)
Inductive call : Type :=
| CallFunc (x : double)
| CallDervi (x : double).

Definition logged (tag : double -> call) (f : double -> double) : callable (list call) :=
  observed (fun x log => log ++ [tag x]) f.

(** One evaluation pair per point: [func] first, then [dervi]. *)
Definition eval_pairs (xs : list double) : list call :=
  flat_map (fun x => [CallFunc x; CallDervi x]) xs.

(** What a log does to a world observed by [obsF] and [obsD]. *)
Definition replay {W} (obsF obsD : double -> W -> W) (log : list call) (w : W) : W :=
  fold_left (fun w c => match c with
                        | CallFunc x => obsF x w
                        | CallDervi x => obsD x w
                        end) log w.

(** ** The Newton sequence *)

Section Newton.

Variables f fPrime : double -> double.

Definition newton_step (x : double) : double := (x - f x / fPrime x)%double.

(** [x0, x1, ..., x(n-1)] *)
Fixpoint iterates (n : nat) (x : double) : list double :=
  match n with
  | O => []
  | S n' => x :: iterates n' (newton_step x)
  end.

(** [xn] *)
Definition nth_iterate (n : nat) (x : double) : double :=
  Nat.iter n newton_step x.

(** The branch conditions of lines 35 and 40 at the point [x]. *)
Definition stalled (x : double) : bool :=
  (abs (fPrime x) <? lit_1e_12)%double.

Definition converged (tolerance : double) (x : double) : bool :=
  (abs (newton_step x - x) <=? tolerance)%double.

End Newton.

(** ** Functions used in concrete runs *)

(** [x * x - 3] and [2 * x], the pair of [main], the product and the
    difference each rounded (no contraction). *)
Definition main_func (x : double) : double := (x * x - of_Z 3)%double.
Definition main_dervi (x : double) : double := (of_Z 2 * x)%double.

(** [x * x - 3] contracted into one fused multiply-add, as C++ lets a
    compiler do within an expression. *)
Definition main_func_fused (x : double) : double := fma x x (of_Z (-3)).

(** The two ways line 57 can be compiled. *)
Inductive fp_contract : Type :=
| ContractOff
| ContractOn.

Definition main_func_compiled (contract : fp_contract) : double -> double :=
  match contract with
  | ContractOff => main_func
  | ContractOn => main_func_fused
  end.

(** [x - 5] and the constant [1]. *)
Definition linear_func (x : double) : double := (x - of_Z 5)%double.
Definition linear_dervi (_ : double) : double := of_Z 1.

(** [x*x*x - 2*x + 2] and [3*x*x - 2]: Newton's method cycles between 0 and 1. *)
Definition cubic_func (x : double) : double := (x * x * x - of_Z 2 * x + of_Z 2)%double.
Definition cubic_dervi (x : double) : double := (of_Z 3 * x * x - of_Z 2)%double.

(** The constant [0] and the constant [1]. *)
Definition zero_func (_ : double) : double := zero.
Definition one_dervi (_ : double) : double := of_Z 1.

(** [x], whose derivative is the constant [1]. *)
Definition identity_func (x : double) : double := x.


(** ** [main]

    The world of [main] is its standard output: the calls of [printf], each
    with its format and its argument, in order. *)

Inductive output : Type :=
| Printf (format : string) (arg : double).

(** [printf(format, arg)], its return value unused. *)
Definition printf (format : string) (arg : double) : M (list output) unit :=
  fun out => Some (tt, out ++ [Printf format arg]).

(** Lines 49-78.  The two lambdas capture nothing: they are pure.  The
    body of the first, [x * x - 3], is evaluated as the build compiles
    it. *)
Definition main (contract : fp_contract) (fuel : nat) : M (list output) Z :=
  let func : callable (list output) :=
    pure_call (main_func_compiled contract) in                       (* 56 *)
  let dervi : callable (list output) := pure_call main_dervi in      (* 64 *)
  let initialGuess := of_Z 1 in                                      (* 67 *)
  let tolerance := lit_1e_15 in                                      (* 68 *)
  let maxIteration := 100%N in                                       (* 69 *)
  result <- newton_raphson func dervi tolerance maxIteration fuel initialGuess ;;  (* 74 *)
  _ <- printf "Result is: %.15e" result ;;                           (* 75 *)
  ret 0%Z.                                                           (* 77 *)

(** ** The algorithm of the specification

    The procedure as the specification words it (section 4.1, steps 1 to 3),
    as a relation between an iteration state and the value returned.  The
    counter [iteration] is a non-negative integer, and step 2f increments
    it: [iteration + 1]. *)

Section Specification.

Variables f fPrime : double -> double.
Variable tolerance : double.
Variable maxIterations : N.

Inductive findRoot_loop : N -> double -> double -> Prop :=
(* 2c: the near-zero-derivative guard *)
| FR_guard iteration currentX previousX dv :
    (iteration <= maxIterations)%N ->
    previousX = currentX ->
    dv = fPrime previousX ->
    (abs dv <? lit_1e_12)%double = true ->
    findRoot_loop iteration currentX currentX
(* 2d, 2e: update, then the convergence check *)
| FR_converged iteration currentX previousX fv dv currentX' :
    (iteration <= maxIterations)%N ->
    previousX = currentX ->
    fv = f previousX ->
    dv = fPrime previousX ->
    (abs dv <? lit_1e_12)%double = false ->
    currentX' = (previousX - fv / dv)%double ->
    (abs (currentX' - previousX) <=? tolerance)%double = true ->
    findRoot_loop iteration currentX currentX'
(* 2f: increment and go round again *)
| FR_continue iteration currentX previousX fv dv currentX' result :
    (iteration <= maxIterations)%N ->
    previousX = currentX ->
    fv = f previousX ->
    dv = fPrime previousX ->
    (abs dv <? lit_1e_12)%double = false ->
    currentX' = (previousX - fv / dv)%double ->
    (abs (currentX' - previousX) <=? tolerance)%double = false ->
    findRoot_loop (iteration + 1) currentX' result ->
    findRoot_loop iteration currentX result
(* 3: the loop exits via the iteration cap *)
| FR_cap iteration currentX :
    (maxIterations < iteration)%N ->
    findRoot_loop iteration currentX currentX.

(* 1: initialisation *)
Definition findRoot (initialGuess : double) (approximateRoot : double) : Prop :=
  findRoot_loop 0 initialGuess approximateRoot.

End Specification.

(** * Properties of the loop *)

Section LoopFacts.

Context {W : Type}.
Variables (obsF obsD : double -> W -> W).
Variables (f fPrime : double -> double).
Variable tolerance : double.
Variable maxIteration : N.


(** One test of the loop condition and one pass, for observed callables. *)
Lemma while_loop_step fuel st w :
  while_loop (observed obsF f) (observed obsD fPrime) tolerance maxIteration (S fuel) st w =
  if (currentIteration st <=? maxIteration)%N then
    let x := currentX st in
    let w' := obsD x (obsF x w) in
    if stalled fPrime x then Some (st, w')
    else if converged f fPrime tolerance x then
      Some (Locals (currentIteration st) (newton_step f fPrime x), w')
    else
      while_loop (observed obsF f) (observed obsD fPrime) tolerance maxIteration fuel
        (Locals (size_t_succ (currentIteration st)) (newton_step f fPrime x)) w'
  else Some (st, w).
Proof.
  cbn [while_loop]. destruct (currentIteration st <=? maxIteration)%N; [|reflexivity].
  destruct st as [i x].
  cbv beta iota zeta delta [bind loop_body observed ret stalled converged
                            newton_step currentX currentIteration].
  destruct (abs (fPrime x) <? lit_1e_12)%double; [reflexivity|].
  destruct (abs (x - f x / fPrime x - x) <=? tolerance)%double; reflexivity.
Qed.

(** More fuel never changes an answer. *)
Lemma while_loop_fuel_mono fuel : forall st w r k,
  while_loop (observed obsF f) (observed obsD fPrime) tolerance maxIteration fuel st w = Some r ->
  while_loop (observed obsF f) (observed obsD fPrime) tolerance maxIteration (fuel + k) st w = Some r.
Proof.
  induction fuel as [|fuel IH]; intros st w r k H; [discriminate|].
  change (S fuel + k)%nat with (S (fuel + k)).
  rewrite while_loop_step in H |- *.
  destruct (currentIteration st <=? maxIteration)%N; [|exact H].
  cbv zeta in H |- *.
  destruct (stalled fPrime (currentX st)); [exact H|].
  destruct (converged f fPrime tolerance (currentX st)); [exact H|].
  apply IH, H.
Qed.

End LoopFacts.

(** ** The run against the algorithm of the specification *)

Section Refinement.

Context {W : Type}.
Variables (f fPrime : double -> double).
Variable tolerance : double.
Variable maxIteration : N.
Hypothesis below_size_max : (maxIteration < SIZE_MAX)%N.

(** While the counter is at most [maxIteration < SIZE_MAX], [++] does not
    wrap. *)
Lemma size_t_succ_below i :
  (i <= maxIteration)%N -> size_t_succ i = (i + 1)%N.
Proof.
  intro H. unfold size_t_succ. apply N.mod_small. unfold SIZE_MAX in below_size_max.
  assert (0 < 2 ^ size_t_bits)%N by (vm_compute; reflexivity). lia.
Qed.

Lemma while_loop_sound fuel : forall st (w : W) st' w',
  while_loop (pure_call f) (pure_call fPrime) tolerance maxIteration fuel st w = Some (st', w') ->
  findRoot_loop f fPrime tolerance maxIteration
    (currentIteration st) (currentX st) (currentX st') /\ w' = w.
Proof.
  induction fuel as [|fuel IH]; intros st w st' w' H; [discriminate|].
  unfold pure_call in H. rewrite while_loop_step in H.
  destruct (currentIteration st <=? maxIteration)%N eqn:Hle.
  - apply N.leb_le in Hle. cbv zeta in H.
    destruct (stalled fPrime (currentX st)) eqn:Hs.
    + injection H as <- <-. split; [|reflexivity].
      eapply FR_guard; eauto.
    + destruct (converged f fPrime tolerance (currentX st)) eqn:Hc.
      * injection H as <- <-. split; [|reflexivity].
        eapply FR_converged; eauto.
      * rewrite size_t_succ_below in H by exact Hle.
        apply IH in H. destruct H as [H ->]. split; [|reflexivity].
        eapply FR_continue; eauto.
  - apply N.leb_gt in Hle. injection H as <- <-. split; [|reflexivity].
    apply FR_cap, Hle.
Qed.

Lemma while_loop_complete iteration x r :
  findRoot_loop f fPrime tolerance maxIteration iteration x r ->
  exists fuel iteration', forall w : W,
    while_loop (pure_call f) (pure_call fPrime) tolerance maxIteration fuel (Locals iteration x) w
    = Some (Locals iteration' r, w).
Proof.
  unfold pure_call.
  induction 1 as [i x p dv Hle -> -> Hs
                 |i x p fv dv x' Hle -> -> -> Hs -> Hc
                 |i x p fv dv x' r Hle -> -> -> Hs -> Hc _ IH
                 |i x Hlt].
  - exists 1%nat, i. intro w. rewrite while_loop_step. cbn [currentIteration currentX].
    apply N.leb_le in Hle. rewrite Hle. cbv zeta. unfold stalled. rewrite Hs. reflexivity.
  - exists 1%nat, i. intro w. rewrite while_loop_step. cbn [currentIteration currentX].
    apply N.leb_le in Hle. rewrite Hle. cbv zeta. unfold stalled, converged, newton_step.
    rewrite Hs, Hc. reflexivity.
  - destruct IH as (fuel & i' & IH). exists (S fuel), i'. intro w.
    rewrite while_loop_step. cbn [currentIteration currentX].
    rewrite size_t_succ_below by exact Hle.
    apply N.leb_le in Hle. rewrite Hle. cbv zeta. unfold stalled, converged, newton_step.
    rewrite Hs, Hc. apply IH.
  - exists 1%nat, i. intro w. rewrite while_loop_step. cbn [currentIteration currentX].
    apply N.leb_gt in Hlt. rewrite Hlt. reflexivity.
Qed.

(** Below [SIZE_MAX] the program computes exactly the specified algorithm:
    with pure callables it returns [r] (given enough fuel, the world
    untouched) if and only if the specified loop returns [r]. *)
Lemma newton_raphson_refines_findRoot initialGuess (w : W) r :
  (exists fuel,
     newton_raphson (pure_call f) (pure_call fPrime) tolerance maxIteration
       fuel initialGuess w = Some (r, w))
  <-> findRoot f fPrime tolerance maxIteration initialGuess r.
Proof.
  unfold newton_raphson, newton_raphson_run, findRoot, bind, ret. split.
  - intros (fuel & H).
    destruct (while_loop (pure_call f) (pure_call fPrime) tolerance maxIteration
                fuel (Locals 0 initialGuess) w) as [[st w']|] eqn:E; [|discriminate].
    apply while_loop_sound in E. destruct E as [E _]. injection H as <-. exact E.
  - intro H. apply while_loop_complete in H.
    destruct H as (fuel & i' & H). exists fuel. rewrite H. reflexivity.
Qed.

End Refinement.

(** The specified loop is total: it returns within [maxIterations + 1]
    passes, whatever the functions, the tolerance and the cap. *)
Lemma findRoot_total f fPrime tolerance maxIterations initialGuess :
  exists r, findRoot f fPrime tolerance maxIterations initialGuess r.
Proof.
  unfold findRoot.
  assert (G : forall n i x, (i + N.of_nat n = maxIterations + 1)%N ->
                exists r, findRoot_loop f fPrime tolerance maxIterations i x r).
  { induction n as [|n IH]; intros i x Hn.
    - exists x. apply FR_cap. lia.
    - destruct (abs (fPrime x) <? lit_1e_12)%double eqn:Hs.
      + exists x. eapply FR_guard; eauto. lia.
      + destruct (abs ((x - f x / fPrime x) - x) <=? tolerance)%double eqn:Hc.
        * eexists. eapply FR_converged; eauto. lia.
        * destruct (IH (i + 1)%N (x - f x / fPrime x)%double) as [r Hr]; [lia|].
          exists r. eapply FR_continue; eauto. lia. }
  apply (G (N.to_nat (maxIterations + 1))). lia.
Qed.

(** * Facts of binary64 arithmetic used by the loop *)

Module DoubleFacts.

(** The literal [1e-12] is a binary64 value, and no binary64 value is
    nearer to the decimal [10^-12]: the error is at most half a unit in
    the last place, [2^-93]. *)
Lemma lit_1e_12_rounds_decimal :
  exists m, lit_1e_12 = S754_finite false m (-92) /\
            valid lit_1e_12 = true /\
            (2 * Z.abs (Z.pos m * 10 ^ 12 - 2 ^ 92) <= 10 ^ 12)%Z.
Proof.
  exists 4951760157141521%positive. repeat split. vm_compute. discriminate.
Qed.

Lemma lit_1e_10_rounds_decimal :
  exists m, lit_1e_10 = S754_finite false m (-86) /\
            valid lit_1e_10 = true /\
            (2 * Z.abs (Z.pos m * 10 ^ 10 - 2 ^ 86) <= 10 ^ 10)%Z.
Proof.
  exists 7737125245533627%positive. repeat split. vm_compute. discriminate.
Qed.

Lemma lit_1e_15_rounds_decimal :
  exists m, lit_1e_15 = S754_finite false m (-102) /\
            valid lit_1e_15 = true /\
            (2 * Z.abs (Z.pos m * 10 ^ 15 - 2 ^ 102) <= 10 ^ 15)%Z.
Proof.
  exists 5070602400912918%positive. repeat split. vm_compute. discriminate.
Qed.

Lemma compare_antisym x y c :
  SFcompare x y = Some c -> SFcompare y x = Some (CompOpp c).
Proof.
  destruct x as [sx|sx| |sx mx ex], y as [sy|sy| |sy my ey]; cbn;
    try discriminate;
    try (destruct sx); try (destruct sy);
    intro H; injection H as <-; try reflexivity.
  - rewrite (Z.compare_antisym ex ey). destruct (ex ?= ey)%Z; cbn; try reflexivity.
    rewrite (Pos.compare_cont_antisym mx my Eq). cbn.
    destruct (Pos.compare_cont Eq mx my); reflexivity.
  - rewrite (Z.compare_antisym ex ey). destruct (ex ?= ey)%Z; cbn; try reflexivity.
    rewrite (Pos.compare_cont_antisym mx my Eq). cbn. reflexivity.
Qed.

(** [a <= b] excludes [b < a]. *)
Lemma leb_not_ltb a b : (a <=? b)%double = true -> (b <? a)%double = false.
Proof.
  unfold leb, ltb, SFleb, SFltb. intro H.
  destruct (SFcompare a b) as [c|] eqn:E; [|discriminate].
  rewrite (compare_antisym _ _ _ E). destruct c; try discriminate; reflexivity.
Qed.

(** An absolute value is never below a negative tolerance. *)
Lemma abs_leb_negative y tol :
  (tol <? zero)%double = true -> (abs y <=? tol)%double = false.
Proof.
  destruct tol as [s|[|]| |[|] m e]; cbn; try discriminate; intros _;
    destruct y as [sy|sy| |sy my ey]; reflexivity.
Qed.

(** A zero derivative, of either sign, triggers the guard. *)
Lemma zero_below_lit d :
  (d == zero)%double = true -> (abs d <? lit_1e_12)%double = true.
Proof.
  destruct d as [s|s| |s m e]; intro H;
    [reflexivity | destruct s; discriminate H | discriminate H
    | destruct s; discriminate H].
Qed.

Lemma eqb_zero_inv x : (x == zero)%double = true -> exists s, x = S754_zero s.
Proof.
  destruct x as [s|[|]| |[|] m e]; cbn; try discriminate. exists s. reflexivity.
Qed.

(** [x - x] is [+0] for every finite [x]. *)
Lemma sub_diag x : is_finite x = true -> (x - x)%double = zero.
Proof.
  destruct x as [[|]|s| |s m e]; cbn; try discriminate; try reflexivity.
  intros _. unfold sub, SFsub. rewrite Z.sub_diag. reflexivity.
Qed.

Lemma eqb_refl x : is_finite x = true -> (x == x)%double = true.
Proof.
  destruct x as [s|s| |s m e]; cbn; try discriminate; try reflexivity.
  intros _. unfold eqb, SFeqb. cbn. rewrite Z.compare_refl.
  rewrite Pos.compare_cont_refl. destruct s; reflexivity.
Qed.

(** Zero divided by a number of magnitude at least [1e-12] is a zero. *)
Lemma zero_div s d :
  (lit_1e_12 <=? abs d)%double = true -> exists s', (S754_zero s / d)%double = S754_zero s'.
Proof.
  destruct d as [sd|sd| |sd m e]; intro H;
    [discriminate H | | discriminate H | ]; eexists; reflexivity.
Qed.

(** Subtracting a zero leaves a finite number as it is, except that
    [-0 - -0] is [+0]. *)
Lemma sub_zero x s :
  is_finite x = true ->
  exists r, (x - S754_zero s)%double = r /\ is_finite r = true /\
            (r == x)%double = true /\
            (r - x)%double = zero /\
            (x <> neg_zero -> r = x).
Proof.
  destruct x as [[|]|sx| |sx m e]; cbn; try discriminate; intros _.
  - destruct s; eexists; (split; [reflexivity|]); repeat split;
      solve [reflexivity | intros H; exfalso; apply H; reflexivity | intros _; reflexivity].
  - destruct s; eexists; (split; [reflexivity|]); repeat split; intros _; reflexivity.
  - exists (S754_finite sx m e). split; [reflexivity|]. repeat split.
    + apply (eqb_refl (S754_finite sx m e)). reflexivity.
    + apply (sub_diag (S754_finite sx m e)). reflexivity.
Qed.

End DoubleFacts.

(** * Runs with observed callables *)

Section Runs.

Variables (f fPrime : double -> double).
Variable tolerance : double.
Variable maxIteration : N.

Lemma length_iterates n : forall x, length (iterates f fPrime n x) = n.
Proof. induction n as [|n IH]; intro x; cbn; [reflexivity | now rewrite IH]. Qed.

Lemma nth_iterate_shift n x :
  nth_iterate f fPrime n (newton_step f fPrime x) = nth_iterate f fPrime (S n) x.
Proof. unfold nth_iterate. symmetry. apply Nat.iter_succ_r. Qed.

Lemma replay_app {W} (obsF obsD : double -> W -> W) l1 l2 w :
  replay obsF obsD (l1 ++ l2) w = replay obsF obsD l2 (replay obsF obsD l1 w).
Proof. apply fold_left_app. Qed.

Lemma replay_pure {W} log (w : W) :
  replay (fun _ w => w) (fun _ w => w) log w = w.
Proof. induction log as [|[x|x] log IH]; cbn; [reflexivity | exact IH | exact IH]. Qed.

(** The log of a run determines what the run does to any observing world. *)
Lemma while_loop_replay {W} (obsF obsD : double -> W -> W) fuel : forall st log w,
  while_loop (observed obsF f) (observed obsD fPrime) tolerance maxIteration fuel st
    (replay obsF obsD log w) =
  match while_loop (logged CallFunc f) (logged CallDervi fPrime) tolerance maxIteration
          fuel st log with
  | Some (st', log') => Some (st', replay obsF obsD log' w)
  | None => None
  end.
Proof.
  induction fuel as [|fuel IH]; intros st log w; [reflexivity|].
  unfold logged. rewrite !while_loop_step.
  destruct (currentIteration st <=? maxIteration)%N; [|reflexivity].
  cbv zeta.
  assert (E : obsD (currentX st) (obsF (currentX st) (replay obsF obsD log w)) =
              replay obsF obsD ((log ++ [CallFunc (currentX st)]) ++ [CallDervi (currentX st)]) w)
    by (now rewrite !replay_app).
  rewrite E.
  destruct (stalled fPrime (currentX st)); [reflexivity|].
  destruct (converged f fPrime tolerance (currentX st)); [reflexivity|].
  apply IH.
Qed.

(** Below [SIZE_MAX] the counter reaches the cap: the loop returns within
    [n] passes when [n] passes are left, having logged one evaluation pair
    per pass at the successive Newton iterates, through one of the three
    [return] statements. *)
Lemma while_loop_terminates :
  (maxIteration < SIZE_MAX)%N ->
  forall n st log,
    (currentIteration st + N.of_nat n = maxIteration + 1)%N ->
    exists st' k,
      while_loop (logged CallFunc f) (logged CallDervi fPrime) tolerance maxIteration
        (S n) st log
      = Some (st', log ++ eval_pairs (iterates f fPrime k (currentX st))) /\
      (k <= n)%nat /\
      ((exists j, k = S j /\
                  stalled fPrime (nth_iterate f fPrime j (currentX st)) = true /\
                  currentX st' = nth_iterate f fPrime j (currentX st)) \/
       (exists j, k = S j /\
                  converged f fPrime tolerance (nth_iterate f fPrime j (currentX st)) = true /\
                  currentX st' = nth_iterate f fPrime (S j) (currentX st)) \/
       (k = n /\ currentX st' = nth_iterate f fPrime n (currentX st))).
Proof.
  intros Hmax n. induction n as [|n IH]; intros st log Hn.
  - exists st, 0%nat. unfold logged. rewrite while_loop_step.
    assert (Hgt : (currentIteration st <=? maxIteration)%N = false)
      by (apply N.leb_gt; lia).
    rewrite Hgt. cbn. rewrite app_nil_r. repeat split; auto.
  - unfold logged. rewrite while_loop_step. fold (logged CallFunc f) (logged CallDervi fPrime).
    assert (Hle : (currentIteration st <=? maxIteration)%N = true)
      by (apply N.leb_le; lia).
    rewrite Hle. cbv zeta.
    destruct (stalled fPrime (currentX st)) eqn:Hs.
    + exists st, 1%nat. cbn. rewrite <- app_assoc. repeat split; [lia|].
      left. exists 0%nat. auto.
    + destruct (converged f fPrime tolerance (currentX st)) eqn:Hc.
      * eexists _, 1%nat. cbn. rewrite <- app_assoc. repeat split; [lia|].
        right; left. exists 0%nat. auto.
      * assert (Hsucc : size_t_succ (currentIteration st) = (currentIteration st + 1)%N).
        { unfold size_t_succ. apply N.mod_small. unfold SIZE_MAX in Hmax.
          assert (0 < 2 ^ size_t_bits)%N by (vm_compute; reflexivity). lia. }
        rewrite Hsucc.
        destruct (IH (Locals (currentIteration st + 1) (newton_step f fPrime (currentX st)))
                     ((log ++ [CallFunc (currentX st)]) ++ [CallDervi (currentX st)]))
          as (st' & k & Hrun & Hk & Hexit); [cbn; lia|].
        exists st', (S k). cbn [currentX] in Hrun, Hexit. rewrite Hrun.
        split; [|split; [lia|]].
        { cbn. now rewrite <- !app_assoc. }
        destruct Hexit as [(j & -> & H1 & H2)|[(j & -> & H1 & H2)|(-> & H2)]].
        -- left. exists (S j). rewrite nth_iterate_shift in H1, H2. auto.
        -- right; left. exists (S j). rewrite !nth_iterate_shift in H1, H2. auto.
        -- right; right. rewrite nth_iterate_shift in H2. auto.
Qed.

(** At [SIZE_MAX] the loop condition holds for every counter value: while
    the iterates stay where neither [return] of the body fires, no amount
    of fuel lets the loop return. *)
Lemma while_loop_diverges {W} (obsF obsD : double -> W -> W) (I : double -> Prop) :
  (SIZE_MAX <= maxIteration)%N ->
  (forall x, I x -> stalled fPrime x = false /\
                    converged f fPrime tolerance x = false /\
                    I (newton_step f fPrime x)) ->
  forall fuel st w,
    (currentIteration st <= SIZE_MAX)%N ->
    I (currentX st) ->
    while_loop (observed obsF f) (observed obsD fPrime) tolerance maxIteration fuel st w
    = None.
Proof.
  intros Hmax Hinv fuel. induction fuel as [|fuel IH]; intros st w Hi Hx; [reflexivity|].
  rewrite while_loop_step.
  assert (Hle : (currentIteration st <=? maxIteration)%N = true)
    by (apply N.leb_le; lia).
  rewrite Hle. cbv zeta.
  destruct (Hinv _ Hx) as (-> & -> & Hx').
  apply IH; [|exact Hx'].
  cbn [currentIteration]. unfold size_t_succ, SIZE_MAX.
  assert (Hpos : (2 ^ size_t_bits <> 0)%N) by (vm_compute; discriminate).
  pose proof (N.mod_lt (currentIteration st + 1) (2 ^ size_t_bits) Hpos). lia.
Qed.

End Runs.

(** * The claims of the specification *)

(** ** Termination *)

(** For every cap below [SIZE_MAX], [maxIteration + 2] tests of the loop
    condition suffice: the run returns, after at most [maxIteration + 1]
    evaluation pairs. *)
Lemma newton_raphson_terminates f fPrime initialGuess tolerance maxIteration :
  (maxIteration < SIZE_MAX)%N ->
  exists r xs,
    newton_raphson (logged CallFunc f) (logged CallDervi fPrime) tolerance maxIteration
      (S (N.to_nat (maxIteration + 1))) initialGuess [] = Some (r, eval_pairs xs) /\
    (N.of_nat (length xs) <= maxIteration + 1)%N.
Proof.
  intro Hmax.
  destruct (while_loop_terminates f fPrime tolerance maxIteration Hmax
              (N.to_nat (maxIteration + 1)) (Locals 0 initialGuess) [])
    as (st' & k & Hrun & Hk & _); [cbn [currentIteration]; lia|].
  exists (currentX st'), (iterates f fPrime k initialGuess).
  unfold newton_raphson, newton_raphson_run, bind, ret. rewrite Hrun.
  split; [reflexivity|]. rewrite length_iterates. lia.
Qed.

(** The cycle [0 -> 1 -> 0] of the cubic: at both points the derivative is
    away from zero and the update moves by 1. *)
Lemma cubic_cycle x :
  x = of_Z 0 \/ x = of_Z 1 ->
  stalled cubic_dervi x = false /\
  converged cubic_func cubic_dervi lit_1e_10 x = false /\
  (newton_step cubic_func cubic_dervi x = of_Z 0 \/
   newton_step cubic_func cubic_dervi x = of_Z 1).
Proof.
  intros [-> | ->]; (split; [|split]); try (vm_compute; reflexivity).
  - right. vm_compute. reflexivity.
  - left. vm_compute. reflexivity.
Qed.

(** C2: with [maxIteration = SIZE_MAX], on the cubic started at [0] with the
    positive tolerance [1e-10], no amount of fuel lets [newton_raphson]
    return: the condition [currentIteration <= SIZE_MAX] holds for every
    value of the counter, which wraps to [0], and the iterates cycle. *)
Theorem newton_raphson_size_max_never_returns
    {W} (obsF obsD : double -> W -> W) fuel (w : W) :
  newton_raphson (observed obsF cubic_func) (observed obsD cubic_dervi)
    lit_1e_10 SIZE_MAX fuel (of_Z 0) w = None.
Proof.
  unfold newton_raphson, newton_raphson_run, bind.
  rewrite (while_loop_diverges cubic_func cubic_dervi lit_1e_10 SIZE_MAX obsF obsD
             (fun x => x = of_Z 0 \/ x = of_Z 1) (N.le_refl _) cubic_cycle).
  - reflexivity.
  - vm_compute. discriminate.
  - left. reflexivity.
Qed.

(** On the cubic the specified loop goes round the cycle until its counter
    passes the cap: with [n] passes left it returns the point it is at when
    [n] is even, the other point when [n] is odd. *)
Lemma cubic_two_cycle :
  (stalled cubic_dervi (of_Z 0) = false /\
   converged cubic_func cubic_dervi lit_1e_10 (of_Z 0) = false /\
   newton_step cubic_func cubic_dervi (of_Z 0) = of_Z 1) /\
  (stalled cubic_dervi (of_Z 1) = false /\
   converged cubic_func cubic_dervi lit_1e_10 (of_Z 1) = false /\
   newton_step cubic_func cubic_dervi (of_Z 1) = of_Z 0).
Proof. repeat split; vm_compute; reflexivity. Qed.

Lemma findRoot_loop_continue f fPrime tolerance maxIterations i x r :
  (i <= maxIterations)%N ->
  stalled fPrime x = false ->
  converged f fPrime tolerance x = false ->
  findRoot_loop f fPrime tolerance maxIterations (i + 1) (newton_step f fPrime x) r ->
  findRoot_loop f fPrime tolerance maxIterations i x r.
Proof.
  intros Hle Hs Hc H.
  exact (FR_continue f fPrime tolerance maxIterations i x x (f x) (fPrime x)
           (newton_step f fPrime x) r Hle eq_refl eq_refl eq_refl Hs eq_refl Hc H).
Qed.

Lemma findRoot_loop_cubic maxIterations n : forall i,
  (i + N.of_nat n = maxIterations + 1)%N ->
  findRoot_loop cubic_func cubic_dervi lit_1e_10 maxIterations i (of_Z 0)
    (if N.even (N.of_nat n) then of_Z 0 else of_Z 1) /\
  findRoot_loop cubic_func cubic_dervi lit_1e_10 maxIterations i (of_Z 1)
    (if N.even (N.of_nat n) then of_Z 1 else of_Z 0).
Proof.
  destruct cubic_two_cycle as [(Hs0 & Hc0 & Hn0) (Hs1 & Hc1 & Hn1)].
  induction n as [|n IH]; intros i Hi.
  - split; apply FR_cap; lia.
  - destruct (IH (i + 1)%N) as [IH0 IH1]; [lia|].
    rewrite Nat2N.inj_succ, N.even_succ, <- N.negb_even.
    destruct (N.even (N.of_nat n)); cbn [negb]; split;
      apply findRoot_loop_continue; try assumption; try lia;
      rewrite ?Hn0, ?Hn1; assumption.
Qed.

(** C1: [newton_raphson] computes exactly the specified algorithm for every
    cap below [SIZE_MAX] (with pure callables it returns [r], given enough
    fuel and leaving the world as it was, if and only if the specified loop
    returns [r]), and not at [maxIterations = SIZE_MAX]: on the cubic
    started at [0] with tolerance [1e-10], the specified loop, whose counter
    is incremented past the cap after [SIZE_MAX + 1] passes, returns [0.0]
    through the iteration cap; the program, whose counter wraps, returns
    nothing, whatever the fuel. *)
Theorem newton_raphson_departs_from_findRoot_at_size_max :
  (forall W (f fPrime : double -> double) initialGuess tolerance maxIterations (w : W) r,
     (maxIterations < SIZE_MAX)%N ->
     ((exists fuel,
         newton_raphson (pure_call f) (pure_call fPrime) tolerance maxIterations
           fuel initialGuess w = Some (r, w))
      <-> findRoot f fPrime tolerance maxIterations initialGuess r)) /\
  findRoot cubic_func cubic_dervi lit_1e_10 SIZE_MAX (of_Z 0) (of_Z 0) /\
  (forall W fuel (w : W),
     newton_raphson (pure_call cubic_func) (pure_call cubic_dervi)
       lit_1e_10 SIZE_MAX fuel (of_Z 0) w = None).
Proof.
  split; [|split].
  - intros W f fPrime x0 tol m w r Hm.
    apply (newton_raphson_refines_findRoot f fPrime tol m Hm).
  - unfold findRoot.
    pose proof (findRoot_loop_cubic SIZE_MAX (N.to_nat (SIZE_MAX + 1)) 0%N) as H.
    rewrite N2Nat.id in H.
    assert (E : N.even (SIZE_MAX + 1) = true) by (vm_compute; reflexivity).
    rewrite E in H. apply H. reflexivity.
  - intros W fuel w.
    unfold newton_raphson, newton_raphson_run, bind, pure_call.
    rewrite (while_loop_diverges cubic_func cubic_dervi lit_1e_10 SIZE_MAX _ _
               (fun x => x = of_Z 0 \/ x = of_Z 1) (N.le_refl _) cubic_cycle).
    + reflexivity.
    + vm_compute. discriminate.
    + left. reflexivity.
Qed.

Lemma newton_raphson_departs_from_findRoot_at_size_max_witness :
  (10 < SIZE_MAX)%N /\
  (exists fuel,
     newton_raphson (pure_call linear_func) (pure_call linear_dervi) lit_1e_10 10
       fuel (of_Z 0) tt = Some (of_Z 5, tt)) /\
  findRoot linear_func linear_dervi lit_1e_10 10 (of_Z 0) (of_Z 5).
Proof.
  assert (H1 : (10 < SIZE_MAX)%N) by (vm_compute; reflexivity).
  assert (H2 : exists fuel,
             newton_raphson (pure_call linear_func) (pure_call linear_dervi) lit_1e_10 10
               fuel (of_Z 0) tt = Some (of_Z 5, tt))
    by (exists 2%nat; vm_compute; reflexivity).
  split; [exact H1|]. split; [exact H2|].
  exact (proj1 (proj1 newton_raphson_departs_from_findRoot_at_size_max
                  unit linear_func linear_dervi (of_Z 0) lit_1e_10 10%N tt (of_Z 5) H1) H2).
Defined.

(** C6: [newton_raphson] is not total at [maxIteration = SIZE_MAX]: on the
    cubic started at [1], with pure callables, the call yields no value,
    whatever the fuel. *)
Theorem newton_raphson_size_max_no_result {W} fuel (w : W) :
  newton_raphson (pure_call cubic_func) (pure_call cubic_dervi)
    lit_1e_10 SIZE_MAX fuel (of_Z 1) w = None.
Proof.
  unfold newton_raphson, newton_raphson_run, bind, pure_call.
  rewrite (while_loop_diverges cubic_func cubic_dervi lit_1e_10 SIZE_MAX _ _
             (fun x => x = of_Z 0 \/ x = of_Z 1) (N.le_refl _) cubic_cycle).
  - reflexivity.
  - vm_compute. discriminate.
  - right. reflexivity.
Qed.

(** ** Negative tolerance *)

(** Under a negative tolerance the convergence test of line 40 fails at every
    point. *)
Lemma negative_tolerance_never_converged f fPrime tolerance x :
  (tolerance <? zero)%double = true -> converged f fPrime tolerance x = false.
Proof. intro H. unfold converged. now apply DoubleFacts.abs_leb_negative. Qed.

(** Below [SIZE_MAX], a run under a negative tolerance returns through the
    derivative guard, at an iterate where the derivative is below [1e-12], or
    after exactly [maxIteration + 1] updates with the last Newton iterate. *)
Lemma negative_tolerance_exits f fPrime initialGuess tolerance maxIteration :
  (tolerance <? zero)%double = true ->
  (maxIteration < SIZE_MAX)%N ->
  exists r k,
    newton_raphson (logged CallFunc f) (logged CallDervi fPrime) tolerance maxIteration
      (S (N.to_nat (maxIteration + 1))) initialGuess []
    = Some (r, eval_pairs (iterates f fPrime k initialGuess)) /\
    ((stalled fPrime r = true /\ (N.of_nat k <= maxIteration + 1)%N /\
      r = nth_iterate f fPrime (pred k) initialGuess) \/
     (N.of_nat k = (maxIteration + 1)%N /\ r = nth_iterate f fPrime k initialGuess)).
Proof.
  intros Htol Hmax.
  destruct (while_loop_terminates f fPrime tolerance maxIteration Hmax
              (N.to_nat (maxIteration + 1)) (Locals 0 initialGuess) [])
    as (st' & k & Hrun & Hk & Hexit); [cbn [currentIteration]; lia|].
  exists (currentX st'), k. cbn [currentX] in *.
  unfold newton_raphson, newton_raphson_run, bind, ret. rewrite Hrun.
  split; [reflexivity|].
  destruct Hexit as [(j & -> & H1 & H2)|[(j & -> & H1 & H2)|(-> & H2)]].
  - left. cbn [pred]. rewrite H2. repeat split; [exact H1 | lia].
  - rewrite negative_tolerance_never_converged in H1 by exact Htol. discriminate.
  - right. split; [lia | exact H2].
Qed.

(** C10: under the negative tolerance [-1], with the derivative guard silent
    at every point, [newton_raphson] at [maxIteration = SIZE_MAX] returns
    neither through the guard nor after [maxIteration + 1] updates: no amount
    of fuel lets it return. *)
Theorem negative_tolerance_size_max_never_returns :
  (of_Z (-1) <? zero)%double = true /\
  (forall x, stalled one_dervi x = false) /\
  (forall W (obsF obsD : double -> W -> W) fuel (w : W),
     newton_raphson (observed obsF zero_func) (observed obsD one_dervi)
       (of_Z (-1)) SIZE_MAX fuel zero w = None).
Proof.
  split; [vm_compute; reflexivity|]. split; [intro x; vm_compute; reflexivity|].
  intros W obsF obsD fuel w.
  unfold newton_raphson, newton_raphson_run, bind.
  rewrite (while_loop_diverges zero_func one_dervi (of_Z (-1)) SIZE_MAX obsF obsD
             (fun x => x = zero) (N.le_refl _)).
  - reflexivity.
  - intros x ->. repeat split; vm_compute; reflexivity.
  - vm_compute. discriminate.
  - reflexivity.
Qed.

(** ** The derivative guard and the first pass *)

(** C3: when [|fPrime(x)| < 1e-12] at the start of a loop pass, the loop
    returns at once with its locals as they were, the update not applied,
    after the one evaluation pair of that pass; in particular, when
    [fPrime(initialGuess)] is a zero, [newton_raphson] returns [initialGuess]
    on the first iteration. *)
Theorem derivative_guard_returns_current f fPrime tolerance maxIteration fuel :
  (forall st log,
     (currentIteration st <= maxIteration)%N ->
     (abs (fPrime (currentX st)) <? lit_1e_12)%double = true ->
     while_loop (logged CallFunc f) (logged CallDervi fPrime) tolerance maxIteration
       (S fuel) st log
     = Some (st, log ++ eval_pairs [currentX st])) /\
  (forall initialGuess,
     (fPrime initialGuess == zero)%double = true ->
     newton_raphson_run (logged CallFunc f) (logged CallDervi fPrime) tolerance
       maxIteration (S fuel) initialGuess []
     = Some (Locals 0 initialGuess, eval_pairs [initialGuess]) /\
     newton_raphson (logged CallFunc f) (logged CallDervi fPrime) tolerance
       maxIteration (S fuel) initialGuess []
     = Some (initialGuess, eval_pairs [initialGuess])).
Proof.
  assert (G : forall st log,
     (currentIteration st <= maxIteration)%N ->
     (abs (fPrime (currentX st)) <? lit_1e_12)%double = true ->
     while_loop (logged CallFunc f) (logged CallDervi fPrime) tolerance maxIteration
       (S fuel) st log
     = Some (st, log ++ eval_pairs [currentX st])).
  { intros st log Hle Hs. unfold logged. rewrite while_loop_step.
    apply N.leb_le in Hle. rewrite Hle. cbv zeta. unfold stalled. rewrite Hs.
    cbn. now rewrite <- app_assoc. }
  split; [exact G|].
  intros x0 Hz. apply DoubleFacts.zero_below_lit in Hz.
  assert (R : newton_raphson_run (logged CallFunc f) (logged CallDervi fPrime) tolerance
                maxIteration (S fuel) x0 [] = Some (Locals 0 x0, eval_pairs [x0])).
  { unfold newton_raphson_run. rewrite G; [reflexivity | apply N.le_0_l | exact Hz]. }
  split; [exact R|]. unfold newton_raphson, bind, ret. rewrite R. reflexivity.
Qed.

Lemma derivative_guard_returns_current_witness :
  ((7 <= 100)%N /\
   (abs (main_dervi zero) <? lit_1e_12)%double = true /\
   while_loop (logged CallFunc main_func) (logged CallDervi main_dervi) lit_1e_10 100
     1 (Locals 7 zero) [] = Some (Locals 7 zero, eval_pairs [zero])) /\
  ((main_dervi neg_zero == zero)%double = true /\
   newton_raphson (logged CallFunc main_func) (logged CallDervi main_dervi) lit_1e_10 100
     1 neg_zero [] = Some (neg_zero, eval_pairs [neg_zero])).
Proof.
  assert (H1 : (7 <= 100)%N) by (vm_compute; discriminate).
  assert (H2 : (abs (main_dervi zero) <? lit_1e_12)%double = true) by (vm_compute; reflexivity).
  assert (H3 : (main_dervi neg_zero == zero)%double = true) by (vm_compute; reflexivity).
  split; (split; [assumption|]).
  - split; [assumption|].
    exact (proj1 (derivative_guard_returns_current main_func main_dervi lit_1e_10 100 0)
             (Locals 7 zero) [] H1 H2).
  - exact (proj2 (proj2 (derivative_guard_returns_current main_func main_dervi lit_1e_10 100 0)
                   neg_zero H3)).
Defined.

(** C4: with [maxIteration = 0], [newton_raphson] performs exactly one
    evaluation pair, at [initialGuess], and returns
    [initialGuess - f(initialGuess) / fPrime(initialGuess)], unless the guard
    [|fPrime(initialGuess)| < 1e-12] fires first, in which case it returns
    [initialGuess]. *)
Theorem max_iteration_zero_single_pass f fPrime initialGuess tolerance fuel :
  newton_raphson (logged CallFunc f) (logged CallDervi fPrime) tolerance 0
    (S (S fuel)) initialGuess []
  = Some (if (abs (fPrime initialGuess) <? lit_1e_12)%double
          then initialGuess
          else (initialGuess - f initialGuess / fPrime initialGuess)%double,
          eval_pairs [initialGuess]).
Proof.
  unfold newton_raphson, newton_raphson_run, bind, ret, logged.
  rewrite while_loop_step. cbn [currentIteration currentX N.leb N.compare].
  cbv zeta. unfold stalled, converged, newton_step.
  destruct (abs (fPrime initialGuess) <? lit_1e_12)%double; [reflexivity|].
  destruct (abs (initialGuess - f initialGuess / fPrime initialGuess - initialGuess)
            <=? tolerance)%double; [reflexivity|].
  rewrite while_loop_step. reflexivity.
Qed.

(** ** Concrete scenario 2 *)

(** C5: for [f(x) = x - 5], [fPrime(x) = 1], [initialGuess = 0],
    [tolerance = 1e-10] and [maxIterations = 10], [newton_raphson] returns
    exactly [5.0] after one iteration: the first update gives [5.0], the
    counter is 1 at the [return], and the pass that returns is the one that
    evaluates the pair at [5.0] and finds the update null. *)
Theorem linear_scenario_returns_five fuel :
  newton_raphson (logged CallFunc linear_func) (logged CallDervi linear_dervi)
    lit_1e_10 10 (S (S fuel)) (of_Z 0) []
  = Some (of_Z 5, eval_pairs [of_Z 0; of_Z 5]) /\
  newton_raphson_run (logged CallFunc linear_func) (logged CallDervi linear_dervi)
    lit_1e_10 10 (S (S fuel)) (of_Z 0) []
  = Some (Locals 1 (of_Z 5), eval_pairs [of_Z 0; of_Z 5]) /\
  nth_iterate linear_func linear_dervi 1 (of_Z 0) = of_Z 5.
Proof.
  assert (R : newton_raphson_run (logged CallFunc linear_func) (logged CallDervi linear_dervi)
                lit_1e_10 10 (S (S fuel)) (of_Z 0) []
              = Some (Locals 1 (of_Z 5), eval_pairs [of_Z 0; of_Z 5])).
  { unfold newton_raphson_run, logged.
    apply (while_loop_fuel_mono _ _ linear_func linear_dervi lit_1e_10 10 2 _ _ _ fuel).
    vm_compute. reflexivity. }
  split; [|split; [exact R | vm_compute; reflexivity]].
  unfold newton_raphson, bind, ret. rewrite R. reflexivity.
Qed.

(** ** Purity *)

(** A run with pure callables from any world is the logged run with the log
    dropped: the world is returned as it was received. *)
Lemma newton_raphson_pure_run {W} f fPrime tolerance maxIteration fuel initialGuess (w : W) :
  newton_raphson (pure_call f) (pure_call fPrime) tolerance maxIteration fuel initialGuess w
  = match newton_raphson (logged CallFunc f) (logged CallDervi fPrime) tolerance
            maxIteration fuel initialGuess [] with
    | Some (r, _) => Some (r, w)
    | None => None
    end.
Proof.
  unfold newton_raphson, newton_raphson_run, bind, ret, pure_call.
  pose proof (while_loop_replay f fPrime tolerance maxIteration
                (fun _ (w : W) => w) (fun _ (w : W) => w) fuel
                (Locals 0 initialGuess) [] w) as H.
  cbn [replay fold_left] in H. rewrite H.
  destruct (while_loop (logged CallFunc f) (logged CallDervi fPrime) tolerance
              maxIteration fuel (Locals 0 initialGuess) []) as [[st log]|]; [|reflexivity].
  fold (replay (fun _ (w : W) => w) (fun _ (w : W) => w) log w).
  now rewrite replay_pure.
Qed.

Lemma newton_raphson_fuel_mono f fPrime tolerance maxIteration fuel k initialGuess r :
  newton_raphson (logged CallFunc f) (logged CallDervi fPrime) tolerance maxIteration
    fuel initialGuess [] = Some r ->
  newton_raphson (logged CallFunc f) (logged CallDervi fPrime) tolerance maxIteration
    (fuel + k) initialGuess [] = Some r.
Proof.
  unfold newton_raphson, newton_raphson_run, bind, ret, logged. intro H.
  destruct (while_loop _ _ tolerance maxIteration fuel (Locals 0 initialGuess) [])
    as [[st log]|] eqn:E; [|discriminate].
  now rewrite (while_loop_fuel_mono _ _ f fPrime tolerance maxIteration fuel _ _ _ k E).
Qed.

(** C8: [newton_raphson] is deterministic and free of side effects: with pure
    callables, two calls with identical arguments, from whatever worlds and
    with whatever fuel, return identical results, and each leaves its world
    as it found it. *)
Theorem newton_raphson_deterministic_pure
    {W} f fPrime tolerance maxIteration initialGuess
    fuel1 fuel2 (w1 w2 : W) r1 r2 w1' w2' :
  newton_raphson (pure_call f) (pure_call fPrime) tolerance maxIteration
    fuel1 initialGuess w1 = Some (r1, w1') ->
  newton_raphson (pure_call f) (pure_call fPrime) tolerance maxIteration
    fuel2 initialGuess w2 = Some (r2, w2') ->
  r1 = r2 /\ w1' = w1 /\ w2' = w2.
Proof.
  rewrite !newton_raphson_pure_run. intros H1 H2.
  destruct (newton_raphson _ _ tolerance maxIteration fuel1 initialGuess [])
    as [[a1 l1]|] eqn:E1; [|discriminate].
  destruct (newton_raphson _ _ tolerance maxIteration fuel2 initialGuess [])
    as [[a2 l2]|] eqn:E2; [|discriminate].
  injection H1 as <- <-. injection H2 as <- <-.
  apply newton_raphson_fuel_mono with (k := fuel2) in E1.
  apply newton_raphson_fuel_mono with (k := fuel1) in E2.
  rewrite Nat.add_comm in E2. rewrite E1 in E2. injection E2 as -> _. auto.
Qed.

Lemma newton_raphson_deterministic_pure_witness :
  newton_raphson (pure_call linear_func) (pure_call linear_dervi) lit_1e_10 10
    2 (of_Z 0) 3%nat = Some (of_Z 5, 3%nat) /\
  newton_raphson (pure_call linear_func) (pure_call linear_dervi) lit_1e_10 10
    5 (of_Z 0) 8%nat = Some (of_Z 5, 8%nat) /\
  (of_Z 5 = of_Z 5 /\ 3%nat = 3%nat /\ 8%nat = 8%nat).
Proof.
  assert (H1 : newton_raphson (pure_call linear_func) (pure_call linear_dervi) lit_1e_10 10
                 2 (of_Z 0) 3%nat = Some (of_Z 5, 3%nat)) by (vm_compute; reflexivity).
  assert (H2 : newton_raphson (pure_call linear_func) (pure_call linear_dervi) lit_1e_10 10
                 5 (of_Z 0) 8%nat = Some (of_Z 5, 8%nat)) by (vm_compute; reflexivity).
  split; [exact H1|]. split; [exact H2|].
  exact (newton_raphson_deterministic_pure linear_func linear_dervi lit_1e_10 10 (of_Z 0)
           2 5 3%nat 8%nat (of_Z 5) (of_Z 5) 3%nat 8%nat H1 H2).
Defined.

(** ** Restarting from a returned value *)







(** ** Starting at an exact root *)

(** The claim C9 does not hold as it stands.  At [initialGuess = +inf], with
    [f(+inf) = 0], [|fPrime(+inf)| = 1 >= 1e-12] and [tolerance = 1e-10 >= 0],
    the convergence test fails on the first pass ([inf - inf] is NaN) and the
    run goes through all 11 passes.  At [initialGuess = -0.0], with
    [f(x) = x] and [fPrime(x) = 1], the first update turns [-0.0] into [+0.0]
    ([-0.0 - -0.0]), which is what the call returns. *)
Lemma exact_root_not_returned_unchanged :
  ((zero_func infinity == zero)%double = true /\
   (lit_1e_12 <=? abs (one_dervi infinity))%double = true /\
   (zero <=? lit_1e_10)%double = true /\
   (abs ((infinity - zero_func infinity / one_dervi infinity) - infinity)
    <=? lit_1e_10)%double = false /\
   newton_raphson_run (logged CallFunc zero_func) (logged CallDervi one_dervi)
     lit_1e_10 10 12 infinity []
   = Some (Locals 11 infinity, eval_pairs (repeat infinity 11))) /\
  ((identity_func neg_zero == zero)%double = true /\
   (lit_1e_12 <=? abs (one_dervi neg_zero))%double = true /\
   (zero <=? lit_1e_10)%double = true /\
   newton_raphson (logged CallFunc identity_func) (logged CallDervi one_dervi)
     lit_1e_10 10 12 neg_zero []
   = Some (zero, eval_pairs [neg_zero]) /\
   zero <> neg_zero).
Proof. repeat split; try (vm_compute; reflexivity). discriminate. Qed.

(** C9, amended: if [initialGuess] is finite, [f(initialGuess)] is a zero,
    [|fPrime(initialGuess)| >= 1e-12] and [tolerance >= 0], then
    [newton_raphson] returns on the first pass, through the convergence
    test, a value equal ([==]) to [initialGuess]; it is [initialGuess]
    itself unless [initialGuess] is [-0.0]. *)
Theorem exact_root_returns_on_first_pass f fPrime initialGuess tolerance maxIteration fuel :
  is_finite initialGuess = true ->
  (f initialGuess == zero)%double = true ->
  (lit_1e_12 <=? abs (fPrime initialGuess))%double = true ->
  (zero <=? tolerance)%double = true ->
  exists r,
    newton_raphson_run (logged CallFunc f) (logged CallDervi fPrime) tolerance maxIteration
      (S fuel) initialGuess [] = Some (Locals 0 r, eval_pairs [initialGuess]) /\
    newton_raphson (logged CallFunc f) (logged CallDervi fPrime) tolerance maxIteration
      (S fuel) initialGuess [] = Some (r, eval_pairs [initialGuess]) /\
    (abs (fPrime initialGuess) <? lit_1e_12)%double = false /\
    (abs (r - initialGuess) <=? tolerance)%double = true /\
    (r == initialGuess)%double = true /\
    (initialGuess <> neg_zero -> r = initialGuess).
Proof.
  intros Hfin Hroot Hd Htol.
  apply DoubleFacts.leb_not_ltb in Hd as Hs.
  destruct (DoubleFacts.eqb_zero_inv _ Hroot) as [s Hf].
  destruct (DoubleFacts.zero_div s _ Hd) as [s' Hq].
  destruct (DoubleFacts.sub_zero initialGuess s' Hfin) as (r & Hr & _ & Heq & Hdiff & Hsame).
  exists r.
  assert (R : newton_raphson_run (logged CallFunc f) (logged CallDervi fPrime) tolerance
                maxIteration (S fuel) initialGuess []
              = Some (Locals 0 r, eval_pairs [initialGuess])).
  { unfold newton_raphson_run, logged. rewrite while_loop_step.
    cbn [currentIteration currentX].
    assert (E : (0 <=? maxIteration)%N = true) by apply N.leb_le, N.le_0_l.
    rewrite E.
    cbv zeta. unfold stalled, converged, newton_step.
    rewrite Hs, Hf, Hq, Hr, Hdiff. cbn [abs SFabs zero]. fold zero. rewrite Htol. reflexivity. }
  split; [exact R|]. split; [unfold newton_raphson, bind, ret; now rewrite R|].
  split; [exact Hs|]. split; [|split; assumption].
  rewrite Hdiff. exact Htol.
Qed.

Lemma exact_root_returns_on_first_pass_witness :
  is_finite (of_Z 5) = true /\
  (linear_func (of_Z 5) == zero)%double = true /\
  (lit_1e_12 <=? abs (linear_dervi (of_Z 5)))%double = true /\
  (zero <=? lit_1e_10)%double = true /\
  exists r,
    newton_raphson_run (logged CallFunc linear_func) (logged CallDervi linear_dervi)
      lit_1e_10 10 1 (of_Z 5) [] = Some (Locals 0 r, eval_pairs [of_Z 5]) /\
    newton_raphson (logged CallFunc linear_func) (logged CallDervi linear_dervi)
      lit_1e_10 10 1 (of_Z 5) [] = Some (r, eval_pairs [of_Z 5]) /\
    (abs (linear_dervi (of_Z 5)) <? lit_1e_12)%double = false /\
    (abs (r - of_Z 5) <=? lit_1e_10)%double = true /\
    (r == of_Z 5)%double = true /\
    (of_Z 5 <> neg_zero -> r = of_Z 5).
Proof.
  assert (H1 : is_finite (of_Z 5) = true) by reflexivity.
  assert (H2 : (linear_func (of_Z 5) == zero)%double = true) by (vm_compute; reflexivity).
  assert (H3 : (lit_1e_12 <=? abs (linear_dervi (of_Z 5)))%double = true)
    by (vm_compute; reflexivity).
  assert (H4 : (zero <=? lit_1e_10)%double = true) by (vm_compute; reflexivity).
  repeat (split; [assumption|]).
  exact (exact_root_returns_on_first_pass linear_func linear_dervi (of_Z 5) lit_1e_10 10 0
           H1 H2 H3 H4).
Defined.

(** ** The call of [main] *)

(** [newton_raphson(func, dervi, 1, 1e-15, 100)] on [x * x - 3], evaluated
    without contraction, returns the binary64 value [0x1.bb67ae8584cabp+0],
    printed [1.732050807568877e+00] by ["%.15e"], after six evaluation
    pairs. *)
Example main_scenario :
  newton_raphson (logged CallFunc main_func) (logged CallDervi main_dervi)
    lit_1e_15 100 7 (of_Z 1) []
  = Some (S754_finite false 7800463371553963 (-52),
          eval_pairs (iterates main_func main_dervi 6 (of_Z 1))).
Proof. vm_compute. reflexivity. Qed.

(** * Further properties of [newton_raphson] *)

(** ** Where the loop leaves *)

Section Exits.

Variables (f fPrime : double -> double).
Variable tolerance : double.
Variable maxIteration : N.

Lemma size_t_succ_small i :
  (i < SIZE_MAX)%N -> size_t_succ i = (i + 1)%N.
Proof.
  intro H. unfold size_t_succ. apply N.mod_small. unfold SIZE_MAX in H.
  assert (0 < 2 ^ size_t_bits)%N by (vm_compute; reflexivity). lia.
Qed.

(** Below [SIZE_MAX], from a state with [n + 1] passes left: the loop leaves
    at the first pass [p] where the guard or the convergence test fires, and
    otherwise after the last pass. *)
Lemma while_loop_first_exit :
  (maxIteration < SIZE_MAX)%N ->
  forall n st log,
    (currentIteration st + N.of_nat (S n) = maxIteration + 1)%N ->
    exists p st',
      (p <= n)%nat /\
      while_loop (logged CallFunc f) (logged CallDervi fPrime) tolerance maxIteration
        (S (S n)) st log
      = Some (st', log ++ eval_pairs (iterates f fPrime (S p) (currentX st))) /\
      (forall j, (j < p)%nat ->
         stalled fPrime (nth_iterate f fPrime j (currentX st)) = false /\
         converged f fPrime tolerance (nth_iterate f fPrime j (currentX st)) = false) /\
      ((stalled fPrime (nth_iterate f fPrime p (currentX st)) = true /\
        st' = Locals (currentIteration st + N.of_nat p)
                     (nth_iterate f fPrime p (currentX st))) \/
       (stalled fPrime (nth_iterate f fPrime p (currentX st)) = false /\
        converged f fPrime tolerance (nth_iterate f fPrime p (currentX st)) = true /\
        st' = Locals (currentIteration st + N.of_nat p)
                     (nth_iterate f fPrime (S p) (currentX st))) \/
       (stalled fPrime (nth_iterate f fPrime p (currentX st)) = false /\
        converged f fPrime tolerance (nth_iterate f fPrime p (currentX st)) = false /\
        p = n /\
        st' = Locals (maxIteration + 1) (nth_iterate f fPrime (S p) (currentX st)))).
Proof.
  intros Hmax n. induction n as [|n IH]; intros [i x] log Hn; cbn [currentIteration currentX] in *.
  - exists 0%nat. unfold logged. rewrite while_loop_step. cbn [currentIteration currentX].
    assert (Hle : (i <=? maxIteration)%N = true) by (apply N.leb_le; lia).
    rewrite Hle. cbv zeta.
    destruct (stalled fPrime x) eqn:Hs.
    + eexists. split; [lia|]. split; [cbn; now rewrite <- app_assoc|].
      split; [intros j Hj; lia|]. left. split; [exact Hs|]. f_equal. lia.
    + destruct (converged f fPrime tolerance x) eqn:Hc.
      * eexists. split; [lia|]. split; [cbn; now rewrite <- app_assoc|].
        split; [intros j Hj; lia|]. right; left. repeat split; auto. f_equal. lia.
      * rewrite while_loop_step. cbn [currentIteration currentX].
        rewrite size_t_succ_small by lia.
        assert (Hgt : (i + 1 <=? maxIteration)%N = false) by (apply N.leb_gt; lia).
        rewrite Hgt. eexists. split; [lia|]. split; [cbn; now rewrite <- app_assoc|].
        split; [intros j Hj; lia|]. right; right. repeat split; auto. f_equal. lia.
  - unfold logged. rewrite while_loop_step. fold (logged CallFunc f) (logged CallDervi fPrime).
    cbn [currentIteration currentX].
    assert (Hle : (i <=? maxIteration)%N = true) by (apply N.leb_le; lia).
    rewrite Hle. cbv zeta.
    destruct (stalled fPrime x) eqn:Hs.
    + exists 0%nat. eexists. split; [lia|]. split; [cbn; now rewrite <- app_assoc|].
      split; [intros j Hj; lia|]. left. split; [exact Hs|]. f_equal. lia.
    + destruct (converged f fPrime tolerance x) eqn:Hc.
      * exists 0%nat. eexists. split; [lia|]. split; [cbn; now rewrite <- app_assoc|].
        split; [intros j Hj; lia|]. right; left. repeat split; auto. f_equal. lia.
      * rewrite size_t_succ_small by lia.
        destruct (IH (Locals (i + 1) (newton_step f fPrime x))
                     ((log ++ [CallFunc x]) ++ [CallDervi x]))
          as (p & st' & Hp & Hrun & Hbefore & Hexit); [cbn [currentIteration]; lia|].
        cbn [currentIteration currentX] in Hrun, Hbefore, Hexit.
        exists (S p), st'. split; [lia|]. split.
        { rewrite Hrun. cbn. now rewrite <- !app_assoc. }
        split.
        { intros [|j] Hj; [cbn; auto|].
          rewrite <- !nth_iterate_shift. apply Hbefore. lia. }
        rewrite !nth_iterate_shift in Hexit.
        replace (i + N.of_nat (S p))%N with (i + 1 + N.of_nat p)%N by lia.
        destruct Hexit as [(H1 & H2)|[(H1 & H2 & H3)|(H1 & H2 & H3 & H4)]].
        -- left. auto.
        -- right; left. auto.
        -- right; right. repeat split; auto.
Qed.


End Exits.



(** For every cap below [SIZE_MAX], [newton_raphson] returns at the first
    pass [p] (counted from 0) at which the guard or the convergence test
    fires, and after pass [maxIteration] when neither ever does: it returns
    [xp] with the counter at [p] when the guard fires at [xp], [x(p+1)] with
    the counter at [p] when the update from [xp] is within tolerance, and
    [x(maxIteration+1)] with the counter at [maxIteration + 1] at the cap;
    it has then evaluated exactly the pairs at [x0 .. xp]. *)
Theorem newton_raphson_first_exit f fPrime tolerance maxIteration initialGuess :
  (maxIteration < SIZE_MAX)%N ->
  exists p st,
    (N.of_nat p <= maxIteration)%N /\
    newton_raphson_run (logged CallFunc f) (logged CallDervi fPrime) tolerance
      maxIteration (S (S (N.to_nat maxIteration))) initialGuess []
    = Some (st, eval_pairs (iterates f fPrime (S p) initialGuess)) /\
    (forall j, (j < p)%nat ->
       stalled fPrime (nth_iterate f fPrime j initialGuess) = false /\
       converged f fPrime tolerance (nth_iterate f fPrime j initialGuess) = false) /\
    ((stalled fPrime (nth_iterate f fPrime p initialGuess) = true /\
      st = Locals (N.of_nat p) (nth_iterate f fPrime p initialGuess)) \/
     (stalled fPrime (nth_iterate f fPrime p initialGuess) = false /\
      converged f fPrime tolerance (nth_iterate f fPrime p initialGuess) = true /\
      st = Locals (N.of_nat p) (nth_iterate f fPrime (S p) initialGuess)) \/
     (stalled fPrime (nth_iterate f fPrime p initialGuess) = false /\
      converged f fPrime tolerance (nth_iterate f fPrime p initialGuess) = false /\
      N.of_nat p = maxIteration /\
      st = Locals (maxIteration + 1) (nth_iterate f fPrime (S p) initialGuess))).
Proof.
  intro Hmax.
  destruct (while_loop_first_exit f fPrime tolerance maxIteration Hmax
              (N.to_nat maxIteration) (Locals 0 initialGuess) [])
    as (p & st & Hp & Hrun & Hbefore & Hexit); [cbn [currentIteration]; lia|].
  cbn [currentIteration currentX app] in Hrun, Hbefore, Hexit.
  exists p, st. split; [lia|]. split; [exact Hrun|]. split; [exact Hbefore|].
  destruct Hexit as [(H1 & H2)|[(H1 & H2 & H3)|(H1 & H2 & H3 & H4)]].
  - left. rewrite N.add_0_l in H2. auto.
  - right; left. rewrite N.add_0_l in H3. auto.
  - right; right. repeat split; auto. lia.
Qed.

Lemma newton_raphson_first_exit_witness :
  (100 < SIZE_MAX)%N /\
  exists p st,
    (N.of_nat p <= 100)%N /\
    newton_raphson_run (logged CallFunc main_func) (logged CallDervi main_dervi) lit_1e_15
      100 (S (S (N.to_nat 100))) (of_Z 1) []
    = Some (st, eval_pairs (iterates main_func main_dervi (S p) (of_Z 1))) /\
    (forall j, (j < p)%nat ->
       stalled main_dervi (nth_iterate main_func main_dervi j (of_Z 1)) = false /\
       converged main_func main_dervi lit_1e_15
         (nth_iterate main_func main_dervi j (of_Z 1)) = false) /\
    ((stalled main_dervi (nth_iterate main_func main_dervi p (of_Z 1)) = true /\
      st = Locals (N.of_nat p) (nth_iterate main_func main_dervi p (of_Z 1))) \/
     (stalled main_dervi (nth_iterate main_func main_dervi p (of_Z 1)) = false /\
      converged main_func main_dervi lit_1e_15
        (nth_iterate main_func main_dervi p (of_Z 1)) = true /\
      st = Locals (N.of_nat p) (nth_iterate main_func main_dervi (S p) (of_Z 1))) \/
     (stalled main_dervi (nth_iterate main_func main_dervi p (of_Z 1)) = false /\
      converged main_func main_dervi lit_1e_15
        (nth_iterate main_func main_dervi p (of_Z 1)) = false /\
      N.of_nat p = 100%N /\
      st = Locals (100 + 1) (nth_iterate main_func main_dervi (S p) (of_Z 1)))).
Proof.
  assert (H : (100 < SIZE_MAX)%N) by (vm_compute; reflexivity).
  split; [exact H|].
  exact (newton_raphson_first_exit main_func main_dervi lit_1e_15 100 (of_Z 1) H).
Defined.

(** ** Changing the cap *)

Section Caps.

Context {W : Type}.
Variables (obsF obsD : double -> W -> W).
Variables (f fPrime : double -> double).
Variable tolerance : double.

(** A return taken inside the loop is taken under any larger cap too. *)
Lemma while_loop_cap_mono m m' fuel : forall st w st' w',
  (m <= m')%N ->
  while_loop (observed obsF f) (observed obsD fPrime) tolerance m fuel st w
  = Some (st', w') ->
  (currentIteration st' <= m)%N ->
  while_loop (observed obsF f) (observed obsD fPrime) tolerance m' fuel st w
  = Some (st', w').
Proof.
  induction fuel as [|fuel IH]; intros st w st' w' Hm H Hin; [discriminate|].
  rewrite while_loop_step in H |- *.
  destruct (currentIteration st <=? m)%N eqn:Hle.
  - assert (Hle' : (currentIteration st <=? m')%N = true)
      by (apply N.leb_le; apply N.leb_le in Hle; lia).
    rewrite Hle'. cbv zeta in H |- *.
    destruct (stalled fPrime (currentX st)); [exact H|].
    destruct (converged f fPrime tolerance (currentX st)); [exact H|].
    now apply IH.
  - injection H as <- <-. apply N.leb_gt in Hle. lia.
Qed.

(** Below [SIZE_MAX] the counter never passes [cap + 1]. *)
Lemma while_loop_counter_bound a fuel : forall st w st' w',
  (a < SIZE_MAX)%N ->
  (currentIteration st <= a + 1)%N ->
  while_loop (observed obsF f) (observed obsD fPrime) tolerance a fuel st w
  = Some (st', w') ->
  (currentIteration st' <= a + 1)%N.
Proof.
  induction fuel as [|fuel IH]; intros st w st' w' Ha Hi H; [discriminate|].
  rewrite while_loop_step in H.
  destruct (currentIteration st <=? a)%N eqn:Hle.
  - apply N.leb_le in Hle. cbv zeta in H.
    destruct (stalled fPrime (currentX st)); [injection H as <- <-; exact Hi|].
    destruct (converged f fPrime tolerance (currentX st));
      [injection H as <- <-; cbn; lia|].
    apply IH in H; [exact H | exact Ha |].
    cbn [currentIteration]. rewrite size_t_succ_small by lia. lia.
  - injection H as <- <-. exact Hi.
Qed.

(** A run that leaves via the cap [a] is a prefix of the run under a larger
    cap [M]: the latter goes on from the locals and the world that the former
    left. *)
Lemma while_loop_resume a M fuel1 : forall st w st1 w1,
  (a <= M)%N ->
  while_loop (observed obsF f) (observed obsD fPrime) tolerance a fuel1 st w
  = Some (st1, w1) ->
  (a < currentIteration st1)%N ->
  forall fuel2 R,
    while_loop (observed obsF f) (observed obsD fPrime) tolerance M fuel2 st1 w1 = Some R ->
    while_loop (observed obsF f) (observed obsD fPrime) tolerance M (fuel1 + fuel2) st w
    = Some R.
Proof.
  induction fuel1 as [|fuel1 IH]; intros st w st1 w1 HM H Hcap fuel2 R HR; [discriminate|].
  rewrite while_loop_step in H.
  destruct (currentIteration st <=? a)%N eqn:Hle.
  - change (S fuel1 + fuel2)%nat with (S (fuel1 + fuel2)). rewrite while_loop_step.
    assert (Hle' : (currentIteration st <=? M)%N = true)
      by (apply N.leb_le; apply N.leb_le in Hle; lia).
    rewrite Hle'. cbv zeta in H |- *. apply N.leb_le in Hle.
    destruct (stalled fPrime (currentX st)); [injection H as <- <-; lia|].
    destruct (converged f fPrime tolerance (currentX st));
      [injection H as <- <-; cbn [currentIteration] in Hcap; lia|].
    eapply IH; eauto.
  - injection H as <- <-. rewrite Nat.add_comm.
    now apply while_loop_fuel_mono.
Qed.

(** Shifting the counter and the cap by [c] does not change a run, as long
    as nothing wraps. *)
Lemma while_loop_shift c b fuel : forall j y w st' w',
  (c + b < SIZE_MAX)%N ->
  (j <= b + 1)%N ->
  while_loop (observed obsF f) (observed obsD fPrime) tolerance b fuel (Locals j y) w
  = Some (st', w') ->
  while_loop (observed obsF f) (observed obsD fPrime) tolerance (c + b) fuel
    (Locals (c + j) y) w
  = Some (Locals (c + currentIteration st') (currentX st'), w').
Proof.
  induction fuel as [|fuel IH]; intros j y w st' w' Hcb Hj H; [discriminate|].
  rewrite while_loop_step in H |- *. cbn [currentIteration currentX] in H |- *.
  destruct (j <=? b)%N eqn:Hle.
  - apply N.leb_le in Hle.
    assert (Hle' : (c + j <=? c + b)%N = true) by (apply N.leb_le; lia).
    rewrite Hle'. cbv zeta in H |- *.
    destruct (stalled fPrime y); [injection H as <- <-; reflexivity|].
    destruct (converged f fPrime tolerance y); [injection H as <- <-; reflexivity|].
    rewrite size_t_succ_small in H |- * by lia.
    replace (c + j + 1)%N with (c + (j + 1))%N by lia.
    apply IH; [exact Hcb | lia | exact H].
  - apply N.leb_gt in Hle.
    assert (Hle' : (c + j <=? c + b)%N = false) by (apply N.leb_gt; lia).
    rewrite Hle'. injection H as <- <-. reflexivity.
Qed.

End Caps.

(** Raising the cap does not change a result that was returned inside the
    loop: if the call under the cap [m] returns through the guard or the
    convergence test (counter at most [m] at the [return]), the call under
    any cap [m' >= m] returns the same value, with the same locals and the
    same effects.  No bound on the caps is needed. *)
Theorem newton_raphson_cap_irrelevant_once_returned
    {W} (obsF obsD : double -> W -> W) f fPrime tolerance m m' fuel initialGuess
    (w : W) st w' :
  (m <= m')%N ->
  newton_raphson_run (observed obsF f) (observed obsD fPrime) tolerance m
    fuel initialGuess w = Some (st, w') ->
  (currentIteration st <= m)%N ->
  newton_raphson_run (observed obsF f) (observed obsD fPrime) tolerance m'
    fuel initialGuess w = Some (st, w') /\
  newton_raphson (observed obsF f) (observed obsD fPrime) tolerance m'
    fuel initialGuess w = Some (currentX st, w').
Proof.
  intros Hm H Hin.
  assert (R : newton_raphson_run (observed obsF f) (observed obsD fPrime) tolerance m'
                fuel initialGuess w = Some (st, w')).
  { unfold newton_raphson_run in *. eapply while_loop_cap_mono; eauto. }
  split; [exact R|]. unfold newton_raphson, bind, ret. now rewrite R.
Qed.

Lemma newton_raphson_cap_irrelevant_once_returned_witness :
  (5 <= SIZE_MAX)%N /\
  newton_raphson_run (logged CallFunc main_func) (logged CallDervi main_dervi) lit_1e_15 5
    6 (of_Z 1) []
  = Some (Locals 5 (S754_finite false 7800463371553963 (-52)),
          eval_pairs (iterates main_func main_dervi 6 (of_Z 1))) /\
  (5 <= 5)%N /\
  newton_raphson_run (logged CallFunc main_func) (logged CallDervi main_dervi) lit_1e_15
    SIZE_MAX 6 (of_Z 1) []
  = Some (Locals 5 (S754_finite false 7800463371553963 (-52)),
          eval_pairs (iterates main_func main_dervi 6 (of_Z 1))) /\
  newton_raphson (logged CallFunc main_func) (logged CallDervi main_dervi) lit_1e_15
    SIZE_MAX 6 (of_Z 1) []
  = Some (S754_finite false 7800463371553963 (-52),
          eval_pairs (iterates main_func main_dervi 6 (of_Z 1))).
Proof.
  assert (H1 : (5 <= SIZE_MAX)%N) by (vm_compute; discriminate).
  assert (H2 : newton_raphson_run (logged CallFunc main_func) (logged CallDervi main_dervi)
                 lit_1e_15 5 6 (of_Z 1) []
               = Some (Locals 5 (S754_finite false 7800463371553963 (-52)),
                       eval_pairs (iterates main_func main_dervi 6 (of_Z 1))))
    by (vm_compute; reflexivity).
  assert (H3 : (5 <= 5)%N) by (vm_compute; discriminate).
  split; [exact H1|]. split; [exact H2|]. split; [exact H3|].
  exact (newton_raphson_cap_irrelevant_once_returned _ _ main_func main_dervi lit_1e_15
           5 SIZE_MAX 6 (of_Z 1) [] _ _ H1 H2 H3).
Defined.

(** A call that runs into its cap can be resumed: if the call under the cap
    [a] leaves via the cap with the value [y], and the call from [y] under
    the cap [b] returns [r], then the single call under the cap [a + 1 + b]
    returns [r], with the effects of the two calls in sequence (nothing
    wrapping: [a + 1 + b < SIZE_MAX]). *)
Theorem newton_raphson_resume_after_cap
    {W} (obsF obsD : double -> W -> W) f fPrime tolerance a b fuel1 fuel2
    initialGuess (w : W) st1 w1 r w2 :
  (a + 1 + b < SIZE_MAX)%N ->
  newton_raphson_run (observed obsF f) (observed obsD fPrime) tolerance a
    fuel1 initialGuess w = Some (st1, w1) ->
  (a < currentIteration st1)%N ->
  newton_raphson (observed obsF f) (observed obsD fPrime) tolerance b
    fuel2 (currentX st1) w1 = Some (r, w2) ->
  newton_raphson (observed obsF f) (observed obsD fPrime) tolerance (a + 1 + b)
    (fuel1 + fuel2) initialGuess w = Some (r, w2).
Proof.
  intros Hab H1 Hcap H2.
  unfold newton_raphson, newton_raphson_run, bind, ret in *.
  destruct (while_loop (observed obsF f) (observed obsD fPrime) tolerance b fuel2
              (Locals 0 (currentX st1)) w1) as [[st2 w2']|] eqn:R2; [|discriminate].
  injection H2 as <- <-.
  assert (Hi : (currentIteration st1 = a + 1)%N).
  { assert (Ha : (a < SIZE_MAX)%N) by lia.
    assert (H0 : (currentIteration (Locals 0 initialGuess) <= a + 1)%N)
      by (cbn [currentIteration]; lia).
    pose proof (while_loop_counter_bound obsF obsD f fPrime tolerance a fuel1
                  _ _ _ _ Ha H0 H1). lia. }
  apply (while_loop_shift obsF obsD f fPrime tolerance (a + 1) b) in R2;
    [| lia | lia].
  rewrite N.add_0_r, <- Hi in R2.
  assert (E : Locals (currentIteration st1) (currentX st1) = st1) by (destruct st1; reflexivity).
  rewrite E in R2. rewrite Hi in R2.
  rewrite (while_loop_resume obsF obsD f fPrime tolerance a (a + 1 + b) fuel1
             _ _ _ _ ltac:(lia) H1 Hcap fuel2 _ R2).
  reflexivity.
Qed.

Lemma newton_raphson_resume_after_cap_witness :
  (2 + 1 + 1 < SIZE_MAX)%N /\
  newton_raphson_run (logged CallFunc cubic_func) (logged CallDervi cubic_dervi) lit_1e_10 2
    4 (of_Z 0) []
  = Some (Locals 3 (of_Z 1), eval_pairs [of_Z 0; of_Z 1; of_Z 0]) /\
  (2 < 3)%N /\
  newton_raphson (logged CallFunc cubic_func) (logged CallDervi cubic_dervi) lit_1e_10 1
    3 (of_Z 1) (eval_pairs [of_Z 0; of_Z 1; of_Z 0])
  = Some (of_Z 1, eval_pairs [of_Z 0; of_Z 1; of_Z 0; of_Z 1; of_Z 0]) /\
  newton_raphson (logged CallFunc cubic_func) (logged CallDervi cubic_dervi) lit_1e_10
    (2 + 1 + 1) (4 + 3) (of_Z 0) []
  = Some (of_Z 1, eval_pairs [of_Z 0; of_Z 1; of_Z 0; of_Z 1; of_Z 0]).
Proof.
  assert (H0 : (2 + 1 + 1 < SIZE_MAX)%N) by (vm_compute; reflexivity).
  assert (H1 : newton_raphson_run (logged CallFunc cubic_func) (logged CallDervi cubic_dervi)
                 lit_1e_10 2 4 (of_Z 0) []
               = Some (Locals 3 (of_Z 1), eval_pairs [of_Z 0; of_Z 1; of_Z 0]))
    by (vm_compute; reflexivity).
  assert (H2 : (2 < 3)%N) by (vm_compute; reflexivity).
  assert (H3 : newton_raphson (logged CallFunc cubic_func) (logged CallDervi cubic_dervi)
                 lit_1e_10 1 3 (of_Z 1) (eval_pairs [of_Z 0; of_Z 1; of_Z 0])
               = Some (of_Z 1, eval_pairs [of_Z 0; of_Z 1; of_Z 0; of_Z 1; of_Z 0]))
    by (vm_compute; reflexivity).
  split; [exact H0|]. split; [exact H1|]. split; [exact H2|]. split; [exact H3|].
  exact (newton_raphson_resume_after_cap _ _ cubic_func cubic_dervi lit_1e_10 2 1 4 3
           (of_Z 0) [] (Locals 3 (of_Z 1)) _ (of_Z 1) _ H0 H1 H2 H3).
Defined.

(** ** NaN *)

Section NaN.

Variables (f fPrime : double -> double).

Lemma newton_step_nan : newton_step f fPrime S754_nan = S754_nan.
Proof. reflexivity. Qed.

Lemma nth_iterate_nan n : nth_iterate f fPrime n S754_nan = S754_nan.
Proof.
  induction n as [|n IH]; [reflexivity|].
  rewrite <- nth_iterate_shift, newton_step_nan. exact IH.
Qed.

(** A NaN from either callable makes the update NaN. *)
Lemma newton_step_of_nan x :
  fPrime x = S754_nan \/ f x = S754_nan -> newton_step f fPrime x = S754_nan.
Proof.
  unfold newton_step. intros [H | H]; rewrite H.
  - destruct (f x) as [s|s| |s m e], x as [sx|sx| |sx mx ex]; reflexivity.
  - destruct x as [sx|sx| |sx mx ex]; reflexivity.
Qed.

(** A NaN tolerance accepts no difference. *)
Lemma converged_nan_tolerance x : converged f fPrime S754_nan x = false.
Proof.
  unfold converged, leb, SFleb.
  destruct (abs (newton_step f fPrime x - x)) as [s|s| |s m e]; reflexivity.
Qed.

End NaN.

(** NaN is not detected and is what comes out: for every cap below
    [SIZE_MAX], if [initialGuess] is NaN, or the guard is silent at
    [initialGuess] and the first update is NaN (a NaN from either callable,
    or [inf / inf]), then [newton_raphson] returns NaN, whatever the
    tolerance. *)
Theorem newton_raphson_nan_propagates f fPrime tolerance maxIteration initialGuess :
  (maxIteration < SIZE_MAX)%N ->
  initialGuess = S754_nan \/
  ((abs (fPrime initialGuess) <? lit_1e_12)%double = false /\
   (initialGuess - f initialGuess / fPrime initialGuess)%double = S754_nan) ->
  exists k,
    (1 <= k)%nat /\ (N.of_nat k <= maxIteration + 1)%N /\
    newton_raphson (logged CallFunc f) (logged CallDervi fPrime) tolerance maxIteration
      (S (S (N.to_nat maxIteration))) initialGuess []
    = Some (S754_nan, eval_pairs (iterates f fPrime k initialGuess)).
Proof.
  intros Hmax Hnan.
  destruct (while_loop_first_exit f fPrime tolerance maxIteration Hmax
              (N.to_nat maxIteration) (Locals 0 initialGuess) [])
    as (p & st & Hp & Hrun & _ & Hexit); [cbn [currentIteration]; lia|].
  cbn [currentIteration currentX app] in Hrun, Hexit.
  exists (S p). split; [lia|]. split; [lia|].
  unfold newton_raphson, newton_raphson_run, bind, ret. rewrite Hrun.
  assert (Hnext : forall j, nth_iterate f fPrime (S j) initialGuess = S754_nan).
  { intro j. rewrite <- nth_iterate_shift.
    assert (E : newton_step f fPrime initialGuess = S754_nan).
    { destruct Hnan as [-> | [_ H]]; [apply newton_step_nan | exact H]. }
    rewrite E. apply nth_iterate_nan. }
  assert (Hres : currentX st = S754_nan).
  { destruct Hexit as [(H1 & ->)|[(_ & _ & ->)|(_ & _ & _ & ->)]];
      cbn [currentX]; try apply Hnext.
    destruct p as [|p]; [|apply Hnext].
    cbn in H1 |- *. unfold stalled in H1.
    destruct Hnan as [H | [H _]]; [exact H | congruence]. }
  now rewrite Hres.
Qed.

Lemma newton_raphson_nan_propagates_witness :
  (3 < SIZE_MAX)%N /\
  ((abs (main_dervi infinity) <? lit_1e_12)%double = false /\
   (infinity - main_func infinity / main_dervi infinity)%double = S754_nan) /\
  exists k,
    (1 <= k)%nat /\ (N.of_nat k <= 3 + 1)%N /\
    newton_raphson (logged CallFunc main_func) (logged CallDervi main_dervi) lit_1e_15 3
      (S (S (N.to_nat 3))) infinity []
    = Some (S754_nan, eval_pairs (iterates main_func main_dervi k infinity)).
Proof.
  assert (H : (3 < SIZE_MAX)%N) by (vm_compute; reflexivity).
  assert (H' : (abs (main_dervi infinity) <? lit_1e_12)%double = false /\
               (infinity - main_func infinity / main_dervi infinity)%double = S754_nan)
    by (split; vm_compute; reflexivity).
  split; [exact H|]. split; [exact H'|].
  exact (newton_raphson_nan_propagates main_func main_dervi lit_1e_15 3 infinity H
           (or_intror H')).
Defined.

(** A NaN tolerance disables the convergence test: for every cap below
    [SIZE_MAX], [newton_raphson] then returns at the first iterate [xp]
    where the guard fires (the guard silent at [x0 .. x(p-1)], the value
    [xp], the counter [p]), or else, the guard silent at every
    [x0 .. x(maxIteration)], it returns [x(maxIteration+1)] after exactly
    [maxIteration + 1] evaluation pairs; the convergence test holds at no
    point. *)
Theorem newton_raphson_nan_tolerance f fPrime maxIteration initialGuess :
  (maxIteration < SIZE_MAX)%N ->
  (forall x, (abs ((x - f x / fPrime x) - x) <=? S754_nan)%double = false) /\
  exists p st,
    newton_raphson_run (logged CallFunc f) (logged CallDervi fPrime) S754_nan
      maxIteration (S (S (N.to_nat maxIteration))) initialGuess []
    = Some (st, eval_pairs (iterates f fPrime (S p) initialGuess)) /\
    (forall j, (j < p)%nat ->
       stalled fPrime (nth_iterate f fPrime j initialGuess) = false) /\
    ((stalled fPrime (nth_iterate f fPrime p initialGuess) = true /\
      (N.of_nat p <= maxIteration)%N /\
      st = Locals (N.of_nat p) (nth_iterate f fPrime p initialGuess)) \/
     (stalled fPrime (nth_iterate f fPrime p initialGuess) = false /\
      N.of_nat p = maxIteration /\
      st = Locals (maxIteration + 1) (nth_iterate f fPrime (S p) initialGuess))).
Proof.
  intro Hmax. split; [intro x; apply (converged_nan_tolerance f fPrime x)|].
  destruct (while_loop_first_exit f fPrime S754_nan maxIteration Hmax
              (N.to_nat maxIteration) (Locals 0 initialGuess) [])
    as (p & st & Hp & Hrun & Hbefore & Hexit); [cbn [currentIteration]; lia|].
  cbn [currentIteration currentX app] in Hrun, Hbefore, Hexit.
  exists p, st. split; [exact Hrun|]. split; [intros j Hj; apply (Hbefore j Hj)|].
  destruct Hexit as [(H1 & H2)|[(_ & H2 & _)|(H1 & _ & H3 & H4)]].
  - left. rewrite N.add_0_l in H2. split; [exact H1|]. split; [lia | exact H2].
  - rewrite converged_nan_tolerance in H2. discriminate.
  - right. split; [exact H1|]. split; [lia | exact H4].
Qed.

Lemma newton_raphson_nan_tolerance_witness :
  (2 < SIZE_MAX)%N /\
  (forall x, (abs ((x - linear_func x / linear_dervi x) - x) <=? S754_nan)%double = false) /\
  exists p st,
    newton_raphson_run (logged CallFunc linear_func) (logged CallDervi linear_dervi)
      S754_nan 2 (S (S (N.to_nat 2))) (of_Z 0) []
    = Some (st, eval_pairs (iterates linear_func linear_dervi (S p) (of_Z 0))) /\
    (forall j, (j < p)%nat ->
       stalled linear_dervi (nth_iterate linear_func linear_dervi j (of_Z 0)) = false) /\
    ((stalled linear_dervi (nth_iterate linear_func linear_dervi p (of_Z 0)) = true /\
      (N.of_nat p <= 2)%N /\
      st = Locals (N.of_nat p) (nth_iterate linear_func linear_dervi p (of_Z 0))) \/
     (stalled linear_dervi (nth_iterate linear_func linear_dervi p (of_Z 0)) = false /\
      N.of_nat p = 2%N /\
      st = Locals (2 + 1) (nth_iterate linear_func linear_dervi (S p) (of_Z 0)))).
Proof.
  assert (H : (2 < SIZE_MAX)%N) by (vm_compute; reflexivity).
  split; [exact H|].
  exact (newton_raphson_nan_tolerance linear_func linear_dervi 2 (of_Z 0) H).
Defined.

(** ** Non-finite starting points *)

(** At an infinite or NaN point the convergence test fails ([inf - inf] is
    NaN) and the update stays infinite or NaN. *)
Lemma non_finite_step f fPrime tolerance x :
  is_finite x = false ->
  converged f fPrime tolerance x = false /\
  is_finite (newton_step f fPrime x) = false.
Proof.
  unfold converged, newton_step. intro H.
  destruct x as [s|s| |s m e]; cbn in H; try discriminate H.
  - destruct (f (S754_infinity s) / fPrime (S754_infinity s))%double as [sq|sq| |sq mq eq];
      destruct s; try destruct sq; split; reflexivity.
  - split; reflexivity.
Qed.

Lemma non_finite_iterates f fPrime x n :
  is_finite x = false -> is_finite (nth_iterate f fPrime n x) = false.
Proof.
  revert x. induction n as [|n IH]; intros x H; [exact H|].
  rewrite <- nth_iterate_shift. apply IH.
  apply (non_finite_step f fPrime zero x H).
Qed.

(** From an infinite or NaN [initialGuess] the convergence test never
    succeeds, whatever the tolerance: it fails at every Newton iterate, each
    of which is infinite or NaN.  For every cap below [SIZE_MAX],
    [newton_raphson] therefore returns at the first iterate [xp] where the
    guard fires (the guard silent before, the value [xp], the counter [p]),
    or else, the guard silent at every [x0 .. x(maxIteration)], it returns
    [x(maxIteration+1)] after exactly [maxIteration + 1] evaluation pairs;
    the value returned is infinite or NaN. *)
Theorem newton_raphson_non_finite_guess f fPrime tolerance maxIteration initialGuess :
  (maxIteration < SIZE_MAX)%N ->
  is_finite initialGuess = false ->
  (forall j,
     is_finite (nth_iterate f fPrime j initialGuess) = false /\
     converged f fPrime tolerance (nth_iterate f fPrime j initialGuess) = false) /\
  exists p st,
    newton_raphson_run (logged CallFunc f) (logged CallDervi fPrime) tolerance
      maxIteration (S (S (N.to_nat maxIteration))) initialGuess []
    = Some (st, eval_pairs (iterates f fPrime (S p) initialGuess)) /\
    is_finite (currentX st) = false /\
    (forall j, (j < p)%nat ->
       stalled fPrime (nth_iterate f fPrime j initialGuess) = false) /\
    ((stalled fPrime (nth_iterate f fPrime p initialGuess) = true /\
      (N.of_nat p <= maxIteration)%N /\
      st = Locals (N.of_nat p) (nth_iterate f fPrime p initialGuess)) \/
     (stalled fPrime (nth_iterate f fPrime p initialGuess) = false /\
      N.of_nat p = maxIteration /\
      st = Locals (maxIteration + 1) (nth_iterate f fPrime (S p) initialGuess))).
Proof.
  intros Hmax Hx.
  assert (Hall : forall j,
            is_finite (nth_iterate f fPrime j initialGuess) = false /\
            converged f fPrime tolerance (nth_iterate f fPrime j initialGuess) = false).
  { intro j. pose proof (non_finite_iterates f fPrime initialGuess j Hx) as Hj.
    split; [exact Hj|]. apply (non_finite_step f fPrime tolerance _ Hj). }
  split; [exact Hall|].
  destruct (while_loop_first_exit f fPrime tolerance maxIteration Hmax
              (N.to_nat maxIteration) (Locals 0 initialGuess) [])
    as (p & st & Hp & Hrun & Hbefore & Hexit); [cbn [currentIteration]; lia|].
  cbn [currentIteration currentX app] in Hrun, Hbefore, Hexit.
  exists p, st. split; [exact Hrun|].
  assert (Hb : forall j, (j < p)%nat ->
                 stalled fPrime (nth_iterate f fPrime j initialGuess) = false)
    by (intros j Hj; apply (Hbefore j Hj)).
  destruct Hexit as [(H1 & H2)|[(_ & H2 & _)|(H1 & _ & H3 & H4)]].
  - rewrite N.add_0_l in H2. split; [rewrite H2; apply Hall|]. split; [exact Hb|].
    left. split; [exact H1|]. split; [lia | exact H2].
  - rewrite (proj2 (Hall p)) in H2. discriminate.
  - split; [rewrite H4; apply Hall|]. split; [exact Hb|].
    right. split; [exact H1|]. split; [lia | exact H4].
Qed.

Lemma newton_raphson_non_finite_guess_witness :
  (4 < SIZE_MAX)%N /\
  is_finite (S754_infinity true) = false /\
  (forall j,
     is_finite (nth_iterate linear_func linear_dervi j (S754_infinity true)) = false /\
     converged linear_func linear_dervi infinity
       (nth_iterate linear_func linear_dervi j (S754_infinity true)) = false) /\
  exists p st,
    newton_raphson_run (logged CallFunc linear_func) (logged CallDervi linear_dervi)
      infinity 4 (S (S (N.to_nat 4))) (S754_infinity true) []
    = Some (st, eval_pairs (iterates linear_func linear_dervi (S p) (S754_infinity true))) /\
    is_finite (currentX st) = false /\
    (forall j, (j < p)%nat ->
       stalled linear_dervi (nth_iterate linear_func linear_dervi j (S754_infinity true))
       = false) /\
    ((stalled linear_dervi (nth_iterate linear_func linear_dervi p (S754_infinity true))
      = true /\
      (N.of_nat p <= 4)%N /\
      st = Locals (N.of_nat p)
             (nth_iterate linear_func linear_dervi p (S754_infinity true))) \/
     (stalled linear_dervi (nth_iterate linear_func linear_dervi p (S754_infinity true))
      = false /\
      N.of_nat p = 4%N /\
      st = Locals (4 + 1)
             (nth_iterate linear_func linear_dervi (S p) (S754_infinity true)))).
Proof.
  assert (H1 : (4 < SIZE_MAX)%N) by (vm_compute; reflexivity).
  assert (H2 : is_finite (S754_infinity true) = false) by reflexivity.
  split; [exact H1|]. split; [exact H2|].
  exact (newton_raphson_non_finite_guess linear_func linear_dervi infinity 4
           (S754_infinity true) H1 H2).
Defined.

(** ** The cap at [SIZE_MAX] *)

Section SizeMax.

Context {W : Type}.
Variables (obsF obsD : double -> W -> W).
Variables (f fPrime : double -> double).
Variable tolerance : double.
Variable maxIteration : N.

(** With the cap at [SIZE_MAX] the loop condition never fails: a run can
    only return from inside the loop. *)
Lemma while_loop_size_max_returns_inside fuel : forall st w st' w',
  (SIZE_MAX <= maxIteration)%N ->
  (currentIteration st <= SIZE_MAX)%N ->
  while_loop (observed obsF f) (observed obsD fPrime) tolerance maxIteration fuel st w
  = Some (st', w') ->
  stalled fPrime (currentX st') = true \/
  exists previousX,
    stalled fPrime previousX = false /\
    converged f fPrime tolerance previousX = true /\
    currentX st' = newton_step f fPrime previousX.
Proof.
  induction fuel as [|fuel IH]; intros st w st' w' Hmax Hi H; [discriminate|].
  rewrite while_loop_step in H.
  assert (Hle : (currentIteration st <=? maxIteration)%N = true)
    by (apply N.leb_le; lia).
  rewrite Hle in H. cbv zeta in H.
  destruct (stalled fPrime (currentX st)) eqn:Hs.
  - injection H as <- <-. left. exact Hs.
  - destruct (converged f fPrime tolerance (currentX st)) eqn:Hc.
    + injection H as <- <-. right. exists (currentX st). auto.
    + apply IH in H; [exact H | exact Hmax |].
      cbn [currentIteration]. unfold size_t_succ, SIZE_MAX.
      assert (Hpos : (2 ^ size_t_bits <> 0)%N) by (vm_compute; discriminate).
      pose proof (N.mod_lt (currentIteration st + 1) (2 ^ size_t_bits) Hpos). lia.
Qed.

End SizeMax.

(** With [maxIteration = SIZE_MAX] the [return] after the loop is never
    reached: a value that [newton_raphson] returns comes from the guard
    ([|dervi(r)| < 1e-12]) or from the convergence test (it is the update of
    a point [previousX] where the guard was silent and the update within
    tolerance), however many times the counter has wrapped. *)
Theorem newton_raphson_size_max_returns_inside
    {W} (obsF obsD : double -> W -> W) f fPrime tolerance fuel initialGuess (w : W) r w' :
  newton_raphson (observed obsF f) (observed obsD fPrime) tolerance SIZE_MAX
    fuel initialGuess w = Some (r, w') ->
  (abs (fPrime r) <? lit_1e_12)%double = true \/
  exists previousX,
    (abs (fPrime previousX) <? lit_1e_12)%double = false /\
    (abs ((previousX - f previousX / fPrime previousX) - previousX)
     <=? tolerance)%double = true /\
    r = (previousX - f previousX / fPrime previousX)%double.
Proof.
  unfold newton_raphson, newton_raphson_run, bind, ret. intro H.
  destruct (while_loop (observed obsF f) (observed obsD fPrime) tolerance SIZE_MAX
              fuel (Locals 0 initialGuess) w) as [[st w1]|] eqn:R; [|discriminate].
  injection H as <- <-.
  apply while_loop_size_max_returns_inside in R;
    [exact R | apply N.le_refl | vm_compute; discriminate].
Qed.

Lemma newton_raphson_size_max_returns_inside_witness :
  newton_raphson (observed (fun _ n => S n) linear_func)
                 (observed (fun _ n => S n) linear_dervi)
    lit_1e_10 SIZE_MAX 2 (of_Z 0) 0%nat = Some (of_Z 5, 4%nat) /\
  ((abs (linear_dervi (of_Z 5)) <? lit_1e_12)%double = true \/
   exists previousX,
     (abs (linear_dervi previousX) <? lit_1e_12)%double = false /\
     (abs ((previousX - linear_func previousX / linear_dervi previousX) - previousX)
      <=? lit_1e_10)%double = true /\
     of_Z 5 = (previousX - linear_func previousX / linear_dervi previousX)%double).
Proof.
  assert (H : newton_raphson (observed (fun _ n => S n) linear_func)
                (observed (fun _ n => S n) linear_dervi)
                lit_1e_10 SIZE_MAX 2 (of_Z 0) 0%nat = Some (of_Z 5, 4%nat))
    by (vm_compute; reflexivity).
  split; [exact H|].
  exact (newton_raphson_size_max_returns_inside _ _ linear_func linear_dervi lit_1e_10 2
           (of_Z 0) 0%nat (of_Z 5) 4%nat H).
Defined.

(** ** [main] *)

(** [main] writes once to standard output, with the format
    ["Result is: %.15e"] and a value [m * 2^-52] that is one of the two
    binary64 numbers next to the square root of 3, and returns 0; six tests
    of the loop condition are enough.  Which of the two depends on how
    [x * x - 3] is compiled: the least number above the root
    ([(m-1)^2 < 3 * 2^104 < m^2]) when the product is rounded, the greatest
    below it ([m^2 < 3 * 2^104 < (m+1)^2]) when the expression is contracted
    into a fused multiply-add. *)
Theorem main_prints_neighbour_of_sqrt_3 contract fuel out :
  exists m,
    main contract (6 + fuel) out
    = Some (0%Z, out ++ [Printf "Result is: %.15e" (S754_finite false m (-52))]) /\
    valid (S754_finite false m (-52)) = true /\
    match contract with
    | ContractOff => ((Z.pos m - 1) ^ 2 < 3 * 2 ^ 104 < Z.pos m ^ 2)%Z
    | ContractOn => (Z.pos m ^ 2 < 3 * 2 ^ 104 < (Z.pos m + 1) ^ 2)%Z
    end.
Proof.
  destruct contract.
  - exists 7800463371553963%positive.
    split; [|split; [vm_compute; reflexivity | split; vm_compute; reflexivity]].
    unfold main, bind, ret, printf. rewrite newton_raphson_pure_run.
    rewrite (newton_raphson_fuel_mono _ main_dervi lit_1e_15 100 6 fuel (of_Z 1)
               (S754_finite false 7800463371553963 (-52),
                eval_pairs (iterates main_func main_dervi 6 (of_Z 1)))).
    + reflexivity.
    + vm_compute. reflexivity.
  - exists 7800463371553962%positive.
    split; [|split; [vm_compute; reflexivity | split; vm_compute; reflexivity]].
    unfold main, bind, ret, printf. rewrite newton_raphson_pure_run.
    rewrite (newton_raphson_fuel_mono _ main_dervi lit_1e_15 100 6 fuel (of_Z 1)
               (S754_finite false 7800463371553962 (-52),
                eval_pairs (iterates main_func_fused main_dervi 6 (of_Z 1)))).
    + reflexivity.
    + vm_compute. reflexivity.
Qed.
